(** * A shallow embedding of the semantic retrieval store
    ([backend/vector_utils.py], class [VectorStore]).

    The store keeps three structures in step: a flat L2 vector index, an
    ordered list of chunk records and a registry of document metadata.
    Python values are rendered as follows.

    - [str] is [string]; [len] is [String.length] (one character per code
      point below 256).
    - [int] is [Z] where the source computes with it ([min_length],
      [page_count], [page]) and [nat] for list positions and sizes.
    - A chunk dict is the record [Chunk.t], a metadata dict is [Meta.t],
      [self.document_metadata] is a [gmap string Meta.t].
    - Methods that assign to [self] are computations in the monad [M]: a
      state transformer on [store] whose result is either a value or a raised
      exception.  The state reached when an exception is raised is kept, as
      it is on a Python object, so a [try]/[except] handler sees every
      mutation done before the raise.
    - A vector is a list of integer coordinates and a distance is the exact
      squared L2 distance in [Z]; the sentence encoder is a parameter. *)

From stdpp Require Import gmap strings list sorting.
From Stdlib Require Import ZArith Ascii Lia.

Local Open Scope Z_scope.

(** ** Python strings *)

Module Str.

Definition len (s : string) : Z := Z.of_nat (String.length s).

(** [str.isspace] on the code points below 256. *)
Definition isspace (c : ascii) : bool :=
  let n := nat_of_ascii c in
  ((9 <=? n) && (n <=? 13) || (28 <=? n) && (n <=? 32)
   || (n =? 133) || (n =? 160))%nat.

Fixpoint lstrip (s : string) : string :=
  match s with
  | EmptyString => EmptyString
  | String c rest => if isspace c then lstrip rest else s
  end.

Fixpoint rstrip (s : string) : string :=
  match s with
  | EmptyString => EmptyString
  | String c rest =>
      match rstrip rest with
      | EmptyString => if isspace c then EmptyString else String c EmptyString
      | r => String c r
      end
  end.

(** [s.strip()] *)
Definition strip (s : string) : string := rstrip (lstrip s).

(** The scan behind [s.split(sep)] for a non-empty [sep]: [skip] counts the
    characters of a separator still to be passed over, [cur] is the piece
    read so far. *)
Fixpoint split_scan (sep : string) (skip : nat) (cur s : string) : list string :=
  match s with
  | EmptyString => [cur]
  | String c rest =>
      match skip with
      | S k => split_scan sep k cur rest
      | O =>
          if String.prefix sep s
          then cur :: split_scan sep (String.length sep - 1) EmptyString rest
          else split_scan sep 0 (cur +:+ String c EmptyString) rest
      end
  end.

(** [s.split(sep)] *)
Definition split (sep s : string) : list string := split_scan sep 0 EmptyString s.

(** Truth value of a string: the empty string is false. *)
Definition truthy (s : string) : bool :=
  match s with EmptyString => false | _ => true end.

Definition newline : string := String (ascii_of_nat 10) EmptyString.

(** [n] copies of the character [c]. *)
Fixpoint replicate (n : nat) (c : ascii) : string :=
  match n with
  | O => EmptyString
  | S k => String c (replicate k c)
  end.

End Str.

(** ** The chunker: [VectorStore._split_text] *)

(** The inner loop over the sentences of a long paragraph.  The state is
    [(current_chunk, final_chunks)]. *)
Fixpoint sentence_loop (min_length : Z) (sentences : list string)
    (current_chunk : string) (final_chunks : list string) : string * list string :=
  match sentences with
  | [] => (current_chunk, final_chunks)
  | sent :: rest =>
      if 500 <? Str.len current_chunk + Str.len sent
      then
        sentence_loop min_length rest sent
          (if min_length <=? Str.len current_chunk
           then final_chunks ++ [current_chunk] else final_chunks)
      else
        sentence_loop min_length rest
          (current_chunk +:+ (if Str.truthy current_chunk then ". " +:+ sent else sent))
          final_chunks
  end.

(** One paragraph: the body of [for para in paragraphs]. *)
Definition split_paragraph (min_length : Z) (para : string)
    (final_chunks : list string) : list string :=
  if 500 <? Str.len para
  then
    let sentences := Str.split ". " para in
    let '(current_chunk, final_chunks) :=
      sentence_loop min_length sentences EmptyString final_chunks in
    if Str.truthy current_chunk && (min_length <=? Str.len current_chunk)
    then final_chunks ++ [current_chunk]
    else final_chunks
  else final_chunks ++ [para].

Fixpoint paragraph_loop (min_length : Z) (paragraphs : list string)
    (final_chunks : list string) : list string :=
  match paragraphs with
  | [] => final_chunks
  | para :: rest =>
      paragraph_loop min_length rest (split_paragraph min_length para final_chunks)
  end.

(** [[p.strip() for p in text.split('\n') if len(p.strip()) >= min_length]] *)
Definition paragraphs_of (text : string) (min_length : Z) : list string :=
  List.filter (fun p => min_length <=? Str.len p)
    (List.map Str.strip (Str.split Str.newline text)).

Definition _split_text (text : string) (min_length : Z) : list string :=
  paragraph_loop min_length (paragraphs_of text min_length) [].

(** Default of the [min_length] parameter. *)
Definition default_min_length : Z := 20.

(** ** Data model *)

(** A vector of the index and the squared L2 distance of [IndexFlatL2]. *)
Definition vec : Type := list Z.

Fixpoint l2 (q v : vec) : Z :=
  match q, v with
  | x :: q', y :: v' => (x - y) * (x - y) + l2 q' v'
  | _, _ => 0
  end.

Module Chunk.
Record t := mk {
  doc_id : string;
  doc_name : string;
  text : string;
  page : Z;
  chunk_id : nat;
  embedding_id : nat
}.
End Chunk.

Module Meta.
Record t := mk {
  name : string;
  upload_time : string;
  page_count : Z;
  chunk_count : nat
}.
End Meta.

(** The attributes [self.index], [self.chunks], [self.document_metadata]. *)
Record store := Store {
  index : list vec;
  chunks : list Chunk.t;
  document_metadata : gmap string Meta.t
}.

(** [faiss.IndexFlatL2(dim)], [[]] and [{}] as set by [__init__]. *)
Definition empty_store : store := Store [] [] ∅.

(** [self.index.ntotal] *)
Definition ntotal (s : store) : nat := length (index s).

(** ** Exceptions and the monad of methods *)

Inductive exn := ZeroDivisionError | IndexError | IOError.

Inductive outcome (A : Type) :=
| Returned (a : A)
| Raised (e : exn).
Arguments Returned {A} a.
Arguments Raised {A} e.

Definition M (A : Type) : Type := store -> outcome A * store.

Definition ret {A} (a : A) : M A := fun s => (Returned a, s).
Definition raise {A} (e : exn) : M A := fun s => (Raised e, s).
Definition bind {A B} (m : M A) (k : A -> M B) : M B :=
  fun s =>
    match m s with
    | (Returned a, s') => k a s'
    | (Raised e, s') => (Raised e, s')
    end.
Definition get : M store := fun s => (Returned s, s).

(** A call that cannot touch the store. *)
Definition lift {A} (o : outcome A) : M A := fun s => (o, s).

(** [try: body except Exception: handler] *)
Definition try_except {A} (body : M A) (handler : exn -> M A) : M A :=
  fun s =>
    match body s with
    | (Returned a, s') => (Returned a, s')
    | (Raised e, s') => handler e s'
    end.

#[global] Instance M_ret : MRet M := @ret.
#[global] Instance M_bind : MBind M := fun A B k m => bind m k.

(** [for i, x in enumerate(l, start): body i x] *)
Fixpoint for_enumerate {A} (start : nat) (l : list A) (body : nat -> A -> M unit) : M unit :=
  match l with
  | [] => ret tt
  | x :: rest => body start x ;; for_enumerate (S start) rest body
  end.

(** Python's [a % b] on integers: floor modulo, raising on a zero divisor. *)
Definition py_mod (a b : Z) : M Z :=
  if b =? 0 then raise ZeroDivisionError else ret (a mod b).

(** Attribute and item assignments. *)
Definition set_index (i : list vec) : M unit :=
  fun s => (Returned tt, Store i (chunks s) (document_metadata s)).
Definition set_chunks (c : list Chunk.t) : M unit :=
  fun s => (Returned tt, Store (index s) c (document_metadata s)).
Definition set_document_metadata (m : gmap string Meta.t) : M unit :=
  fun s => (Returned tt, Store (index s) (chunks s) m).

(** [self.index.add(vectors)] *)
Definition index_add (vectors : list vec) : M unit :=
  fun s => (Returned tt, Store (index s ++ vectors) (chunks s) (document_metadata s)).

(** [self.chunks.append(c)] *)
Definition chunks_append (c : Chunk.t) : M unit :=
  fun s => (Returned tt, Store (index s) (chunks s ++ [c]) (document_metadata s)).

(** ** numpy helpers used by [delete_document] *)

(** [mask[ids] = False]: every index is bounds-checked. *)
Fixpoint mask_clear (mask : list bool) (ids : list nat) : outcome (list bool) :=
  match ids with
  | [] => Returned mask
  | i :: rest =>
      if (i <? length mask)%nat
      then mask_clear (<[i := false]> mask) rest
      else Raised IndexError
  end.

(** [rows[mask]]: the rows whose mask entry is true, in order. *)
Fixpoint mask_select {A} (rows : list A) (mask : list bool) : list A :=
  match rows, mask with
  | r :: rows', b :: mask' =>
      if b then r :: mask_select rows' mask' else mask_select rows' mask'
  | _, _ => []
  end.

(** [for i, chunk in enumerate(chunks): chunk['embedding_id'] = i] *)
Definition renumber (cs : list Chunk.t) : list Chunk.t :=
  imap (fun i c =>
          Chunk.mk (Chunk.doc_id c) (Chunk.doc_name c) (Chunk.text c)
            (Chunk.page c) (Chunk.chunk_id c) i) cs.

(** ** The flat index search *)

(** A hit of the index is a label with its distance to the query; hits are
    compared by distance, then by label. *)
Definition hit_le (a b : nat * Z) : bool :=
  (snd a <? snd b) || ((snd a =? snd b) && (fst a <=? fst b)%nat).

Fixpoint hit_insert (a : nat * Z) (l : list (nat * Z)) : list (nat * Z) :=
  match l with
  | [] => [a]
  | b :: rest => if hit_le a b then a :: l else b :: hit_insert a rest
  end.

Definition hit_sort (l : list (nat * Z)) : list (nat * Z) :=
  foldr hit_insert [] l.

(** Modelled from the spec: [faiss.IndexFlatL2.search], the library call
    behind [self.index.search(query, top_k)], is not part of the repository.
    Following section 4.3 it yields at most [k] pairs (embedding id,
    distance), ascending by L2 distance to the query, ties broken by the
    lower id. *)
Definition index_search (idx : list vec) (q : vec) (k : nat) : list (nat * Z) :=
  take k (hit_sort (imap (fun i v => (i, l2 q v)) idx)).

(** A search result: the chunk's fields together with [score] and
    [distance]. *)
Record result := Result {
  res_chunk : Chunk.t;
  score : Z;
  distance : Z
}.

(** The order of the hits of a search: nearer first, and at equal distance
    the lower id first. *)
Definition hit_lt (a b : nat * Z) : Prop :=
  a.2 < b.2 \/ (a.2 = b.2 /\ (a.1 < b.1)%nat).

(** The same order on results, read off their [distance] and
    [embedding_id] fields. *)
Definition result_before (r1 r2 : result) : Prop :=
  distance r1 < distance r2
  \/ (distance r1 = distance r2
      /\ (Chunk.embedding_id (res_chunk r1) < Chunk.embedding_id (res_chunk r2))%nat).

(** ** The methods of [VectorStore] *)

Section VectorStore.

(** [self.model.encode]: the sentence encoder, one vector per text, in the
    order of the batch. *)
Variable embed : string -> vec.

Definition encode (texts : list string) : list vec := List.map embed texts.

(** The body of [for i, para in enumerate(paragraphs)] in
    [add_document]; [n] is [len(paragraphs)].  The page is computed before
    the record is appended. *)
Definition add_chunk (doc_id doc_name : string) (page_count : Z) (n : nat)
    (i : nat) (para : string) : M unit :=
  m ← py_mod (Z.of_nat i) page_count;
  s ← get;
  chunks_append
    (Chunk.mk doc_id doc_name para (m + 1)
       (length (chunks s))
       (ntotal s - n + i)).

(** [add_document(text, doc_id, doc_name, page_count)].  [now] stands for
    [datetime.now().isoformat()].  The closing [self._save_to_disk()]
    writes files only and catches its own exceptions; it is modelled apart,
    by [_save_to_disk] below. *)
Definition add_document (text doc_id doc_name : string) (page_count : Z)
    (now : string) : M bool :=
  try_except
    (let paragraphs := _split_text text default_min_length in
     match paragraphs with
     | [] => mret false
     | _ =>
         let embeddings := encode paragraphs in
         index_add embeddings ;;
         for_enumerate 0 paragraphs
           (add_chunk doc_id doc_name page_count (length paragraphs)) ;;
         s ← get;
         set_document_metadata
           (<[doc_id := Meta.mk doc_name now page_count (length paragraphs)]>
              (document_metadata s)) ;;
         mret true
     end)
    (fun _ => mret false).

(** [if doc_filter and chunk['doc_id'] not in doc_filter: continue] *)
Definition filtered_out (doc_filter : option (list string)) (chunk : Chunk.t) : bool :=
  match doc_filter with
  | Some (d :: ds) => bool_decide (Chunk.doc_id chunk ∉ d :: ds)
  | _ => false
  end.

(** The body of [for i, idx in enumerate(indices[0])]: [None] is
    [continue]. *)
Definition search_step (s : store) (doc_filter : option (list string))
    (h : nat * Z) : option result :=
  let '(idx, dist) := h in
  if (length (chunks s) <=? idx)%nat then None
  else
    match chunks s !! idx with
    | None => None
    | Some chunk =>
        if filtered_out doc_filter chunk then None
        else Some (Result chunk (1 - dist) dist)
    end.

(** [search(query, top_k, doc_filter)].  The method does not assign to
    [self], so it is a function of the store; no statement of its body can
    raise in this model, so the handler is never entered. *)
Definition search (s : store) (query : string) (top_k : nat)
    (doc_filter : option (list string)) : list result :=
  if (ntotal s =? 0)%nat then []
  else
    let query_embedding := embed query in
    let hits := index_search (index s) query_embedding top_k in
    omap (search_step s doc_filter) hits.

Definition get_document_chunks (s : store) (doc_id : string) : list Chunk.t :=
  filter (fun chunk => Chunk.doc_id chunk = doc_id) (chunks s).

(** [[i for i, chunk in enumerate(chunks) if chunk['doc_id'] == doc_id]] *)
Definition delete_indices (cs : list Chunk.t) (doc_id : string) : list nat :=
  (filter (fun ic => Chunk.doc_id ic.2 = doc_id) (imap pair cs)).*1.

Definition delete_document (doc_id : string) : M bool :=
  try_except
    (s ← get;
     match document_metadata s !! doc_id with
     | None => mret false
     | Some _ =>
         match delete_indices (chunks s) doc_id with
         | [] => mret false
         | _ =>
             let all_vectors := index s in
             keep_mask ← lift
               (mask_clear (replicate (ntotal s) true)
                  (Chunk.embedding_id <$>
                     filter (fun chunk => Chunk.doc_id chunk = doc_id) (chunks s)));
             set_index (mask_select all_vectors keep_mask) ;;
             set_chunks
               (filter (fun chunk => Chunk.doc_id chunk ≠ doc_id) (chunks s)) ;;
             set_document_metadata (delete doc_id (document_metadata s)) ;;
             s' ← get;
             set_chunks (renumber (chunks s')) ;;
             mret true
         end
     end)
    (fun _ => mret false).

(** A caller's operation on the store, and a run of operations. *)
Inductive op :=
| Ingest (text doc_id doc_name : string) (page_count : Z) (now : string)
| Delete (doc_id : string).

Definition step (o : op) (s : store) : store :=
  match o with
  | Ingest text doc_id doc_name page_count now =>
      (add_document text doc_id doc_name page_count now s).2
  | Delete doc_id => (delete_document doc_id s).2
  end.

Definition run (ops : list op) (s : store) : store :=
  foldl (fun s o => step o s) s ops.

(** Ingests that pass a usable page count. *)
Definition usable (o : op) : Prop :=
  match o with
  | Ingest _ _ _ page_count _ => page_count ≠ 0
  | Delete _ => True
  end.

(** The dense id invariant of the data model: the embedding ids are
    exactly [0 .. ntotal - 1] without repetition, each chunk sits at the
    position its id names, and the index holds at that position the
    vector the encoder gave for the chunk's text. *)
Definition dense_ids (s : store) : Prop :=
  NoDup (Chunk.embedding_id <$> chunks s)
  ∧ (∀ n, n ∈ Chunk.embedding_id <$> chunks s ↔ (n < ntotal s)%nat)
  ∧ (∀ i c, chunks s !! i = Some c → Chunk.embedding_id c = i)
  ∧ (∀ c, c ∈ chunks s →
          index s !! Chunk.embedding_id c = Some (embed (Chunk.text c))).

(** The same invariant in the form the proofs carry along. *)
Definition in_step (s : store) : Prop :=
  Chunk.embedding_id <$> chunks s = seq 0 (ntotal s)
  ∧ index s = (fun c => embed (Chunk.text c)) <$> chunks s.

End VectorStore.

(** ** Persistence: [_load_from_disk] and [_save_to_disk] *)

Section Persistence.

(** File contents and the three serialisers: [faiss.write_index] /
    [faiss.read_index], [json.dump] / [json.load], [pickle.dump] /
    [pickle.load].  A reader raises on contents it cannot parse. *)
Variable bytes : Type.
Variable write_index : list vec -> bytes.
Variable read_index : bytes -> outcome (list vec).
Variable json_dump : list Chunk.t -> bytes.
Variable json_load : bytes -> outcome (list Chunk.t).
Variable pickle_dump : gmap string Meta.t -> bytes.
Variable pickle_load : bytes -> outcome (gmap string Meta.t).

(** The storage directory: a path that does not exist is [None]. *)
Record disk := Disk {
  index_file : option bytes;
  chunk_file : option bytes;
  metadata_file : option bytes
}.

Definition load_body (d : disk) : M unit :=
  match index_file d with
  | Some b => i ← lift (read_index b); set_index i
  | None => mret tt
  end ;;
  match chunk_file d with
  | Some b => c ← lift (json_load b); set_chunks c
  | None => mret tt
  end ;;
  match metadata_file d with
  | Some b => m ← lift (pickle_load b); set_document_metadata m
  | None => mret tt
  end.

Definition _load_from_disk (d : disk) : M unit :=
  try_except (load_body d)
    (fun _ => set_index [] ;; set_chunks [] ;; set_document_metadata ∅).

(** [VectorStore.__init__]: the empty triple, then the load. *)
Definition init (d : disk) : outcome unit * store :=
  _load_from_disk d empty_store.

(** [_save_to_disk] when every write goes through: the three files are
    replaced.  A failing write is a fault of the environment, which the
    method logs and swallows. *)
Definition _save_to_disk (s : store) (d : disk) : disk :=
  Disk (Some (write_index (index s)))
       (Some (json_dump (chunks s)))
       (Some (pickle_dump (document_metadata s))).

(** Some existing file cannot be read or parsed. *)
Definition unreadable (d : disk) : Prop :=
  (∃ b e, index_file d = Some b ∧ read_index b = Raised e)
  ∨ (∃ b e, chunk_file d = Some b ∧ json_load b = Raised e)
  ∨ (∃ b e, metadata_file d = Some b ∧ pickle_load b = Raised e).

(** The whole artifact set is absent. *)
Definition missing (d : disk) : Prop :=
  index_file d = None ∧ chunk_file d = None ∧ metadata_file d = None.

End Persistence.

(** The chunk records an ingest appends, in closed form: [len0] chunks and
    [nt] vectors are in the store when the loop starts at position [start]
    of a batch of [n] paragraphs. *)
Definition ingested (doc_id doc_name : string) (page_count : Z)
    (len0 nt n start : nat) (paragraphs : list string) : list Chunk.t :=
  imap (fun j para =>
          Chunk.mk doc_id doc_name para
            (Z.of_nat (start + j) mod page_count + 1)
            (len0 + j) (nt - n + (start + j)))
       paragraphs.

(** ** More of Python's strings, as used by [backend/qa_utils.py] *)

Module Text.

(** [c in chars] for a character and a string of characters. *)
Definition mem (c : ascii) (chars : string) : bool :=
  existsb (Ascii.eqb c) (String.list_ascii_of_string chars).

(** [s.lstrip(chars)]: drops the leading characters that occur in [chars]. *)
Fixpoint lstrip_chars (chars s : string) : string :=
  match s with
  | EmptyString => EmptyString
  | String c rest => if mem c chars then lstrip_chars chars rest else s
  end.

(** [sub in s] *)
Fixpoint contains (sub s : string) : bool :=
  match s with
  | EmptyString => String.prefix sub EmptyString
  | String _ rest => String.prefix sub s || contains sub rest
  end.

(** [s.replace(old, new)] for a non-empty [old]: the pieces between the
    occurrences of [old], found from left to right, joined by [new]. *)
Definition replace (old new s : string) : string :=
  String.concat new (Str.split old s).

(** The characters below 256 that [str.isdigit] accepts: the decimal digits
    and the superscripts two, three and one. *)
Definition is_decimal (c : ascii) : bool :=
  let n := nat_of_ascii c in ((48 <=? n) && (n <=? 57))%nat.
Definition is_digit (c : ascii) : bool :=
  let n := nat_of_ascii c in
  (is_decimal c || (n =? 178) || (n =? 179) || (n =? 185))%nat.

(** [s.isdigit()]: not empty and made of digits. *)
Definition isdigit (s : string) : bool :=
  Str.truthy s && forallb is_digit (String.list_ascii_of_string s).

(** [int(s)] for a string that passed [isdigit]: its decimal value, and
    [None], a [ValueError], when a superscript digit occurs in it. *)
Fixpoint int_from (acc : nat) (s : string) : option nat :=
  match s with
  | EmptyString => Some acc
  | String c rest =>
      if is_decimal c
      then int_from (10 * acc + (nat_of_ascii c - 48))%nat rest
      else None
  end.
Definition py_int (s : string) : option nat := int_from 0 s.

End Text.

(** ** The answer layer: [backend/qa_utils.py] *)

(** An entry of [document_answers], as built by [ask_question]. *)
Module Answer.
Record t := mk {
  doc_id : string;
  doc_name : string;
  page : Z;
  para : string;
  answer : string
}.
End Answer.

(** An entry of a theme's ["documents"]. *)
Module DocRef.
Record t := mk {
  doc_id : string;
  doc_name : string;
  page : Z
}.
End DocRef.

Module Theme.
Record t := mk {
  name : string;
  description : string;
  documents : list DocRef.t
}.
End Theme.

(** The dict returned by [parse_theme_response] and [identify_themes]. *)
Module Reply.
Record t := mk {
  synthesized_answer : string;
  themes : list Theme.t;
  sources : list Answer.t
}.
End Reply.

(** [[int(n.strip()) for n in items if n.strip().isdigit()]]; [None] when
    an [int] raises. *)
Fixpoint doc_numbers_of (items : list string) : option (list nat) :=
  match items with
  | [] => Some []
  | n :: rest =>
      if Text.isdigit (Str.strip n)
      then
        match Text.py_int (Str.strip n) with
        | None => None
        | Some k =>
            match doc_numbers_of rest with
            | None => None
            | Some ks => Some (k :: ks)
            end
        end
      else doc_numbers_of rest
  end.

(** The numbers listed on the ["Documents:"] line, if there is one. *)
Definition doc_numbers (doc_line : option string) : option (list nat) :=
  match doc_line with
  | Some l =>
      if Str.truthy l
      then
        match Str.split ":" l with
        | _ :: listed :: _ => doc_numbers_of (Str.split "," listed)
        | _ => None
        end
      else Some []
  | None => Some []
  end.

(** The loop over [doc_nums]: a number outside [1 .. len(document_answers)]
    is passed over. *)
Definition relevant_docs (doc_nums : list nat) (document_answers : list Answer.t)
    : list DocRef.t :=
  omap (fun n =>
          if ((1 <=? n) && (n <=? length document_answers))%nat
          then
            match document_answers !! (n - 1)%nat with
            | Some doc =>
                Some (DocRef.mk (Answer.doc_id doc) (Answer.doc_name doc)
                        (Answer.page doc))
            | None => None
            end
          else None)
       doc_nums.

(** What one pass of [for block in blocks] does: [continue], an exception
    that ends the loop, or a theme appended. *)
Inductive block_result :=
| Skipped
| Aborted
| Made (t : Theme.t).

Definition theme_of_block (block : string) (document_answers : list Answer.t)
    : block_result :=
  let lines := Str.split Str.newline block in
  if (length lines <? 3)%nat then Skipped
  else
    match lines with
    | l0 :: l1 :: _ =>
        let title := Str.strip (Text.lstrip_chars "123.- " l0) in
        let description := Str.strip (Text.lstrip_chars "- " l1) in
        let doc_line := find (Text.contains "Documents:") lines in
        match doc_numbers doc_line with
        | None => Aborted
        | Some doc_nums =>
            Made (Theme.mk title description
                    (relevant_docs doc_nums document_answers))
        end
    | _ => Aborted
    end.

(** The themes appended to [result["themes"]]; those appended before an
    exception stay. *)
Fixpoint theme_loop (blocks : list string) (document_answers : list Answer.t)
    (themes : list Theme.t) : list Theme.t :=
  match blocks with
  | [] => themes
  | block :: rest =>
      match theme_of_block block document_answers with
      | Skipped => theme_loop rest document_answers themes
      | Aborted => themes
      | Made t => theme_loop rest document_answers (themes ++ [t])
      end
  end.

Definition answer_marker : string := "SYNTHESIZED ANSWER:".

Definition parse_theme_response (response_text : string)
    (document_answers : list Answer.t) : Reply.t :=
  match Str.split answer_marker response_text with
  | [] => Reply.mk EmptyString [] document_answers
  | part0 :: more =>
      let theme_text :=
        if Text.contains "THEMES:" part0
        then Str.strip (Text.replace "THEMES:" EmptyString part0)
        else Str.strip part0 in
      let synthesized_answer :=
        match more with
        | part1 :: _ => Str.strip part1
        | [] => "Could not extract answer."
        end in
      let blocks :=
        List.filter Str.truthy
          (List.map Str.strip (Str.split (Str.newline +:+ Str.newline) theme_text)) in
      Reply.mk synthesized_answer (theme_loop blocks document_answers [])
        document_answers
  end.

(** [ask_llm]: [reply] is what the chat service gave for the prompt, an
    exception included; [str_exn] renders an exception as text. *)
Definition ask_llm (reply : outcome string) (str_exn : exn -> string) : string :=
  match reply with
  | Returned content => content
  | Raised e => "Error generating answer: " +:+ str_exn e
  end.

(** [identify_themes]: [reply] is what the chat service gave for the theme
    prompt.  The prompt is built from [question] and [document_answers] and
    goes to the service only. *)
Definition identify_themes (reply : outcome string)
    (document_answers : list Answer.t) : Reply.t :=
  match reply with
  | Returned content => parse_theme_response content document_answers
  | Raised _ => Reply.mk "Theme extraction failed." [] document_answers
  end.

(** ** The request handlers: [backend/main.py] *)

(** The dicts [upload_doc] returns. *)
Inductive upload_reply :=
| UploadComplete
| NoTextExtracted
| NoValidContent
| UploadFailed (e : exn).

(** What [ask_question] returns: the fixed "no relevant content" dict, or
    the dict of [identify_themes]. *)
Inductive ask_reply :=
| NoRelevantContent
| Answered (r : Reply.t).

Section Handlers.

Variable embed : string -> vec.

(** [upload_doc(file)].  [extracted] is the outcome of saving the upload and
    of [ocr_processor.extract_text] on it; the document is ingested under
    its file name with the default [page_count] of 1. *)
Definition upload_doc (filename : string) (extracted : outcome string)
    (now : string) : M upload_reply :=
  try_except
    (text ← lift extracted;
     if negb (Str.truthy (Str.strip text)) then mret NoTextExtracted
     else
       success ← add_document embed text filename filename 1 now;
       if negb success then mret NoValidContent else mret UploadComplete)
    (fun e => mret (UploadFailed e)).

(** A run of uploads, the only writes the handlers make. *)
Definition run_uploads (uploads : list (string * outcome string * string))
    (s : store) : store :=
  foldl (fun s u => (upload_doc u.1.1 u.1.2 u.2 s).2) s uploads.

(** The entry of [document_answers] for the [i]-th result. *)
Definition document_answer (chat : nat -> outcome string)
    (str_exn : exn -> string) (i : nat) (chunk : result) : Answer.t :=
  Answer.mk (Chunk.doc_id (res_chunk chunk)) (Chunk.doc_name (res_chunk chunk))
    (Chunk.page (res_chunk chunk)) (Chunk.text (res_chunk chunk))
    (ask_llm (chat i) str_exn).

(** [ask_question(data)].  [chat i] is the reply of the chat service to the
    prompt for the [i]-th result and [themes_reply] its reply to the theme
    prompt.  No statement of the body can raise in this model. *)
Definition ask_question (s : store) (question : string)
    (chat : nat -> outcome string) (themes_reply : outcome string)
    (str_exn : exn -> string) : ask_reply :=
  let results := search embed s question 5 None in
  match results with
  | [] => NoRelevantContent
  | _ =>
      let document_answers := imap (document_answer chat str_exn) results in
      Answered (identify_themes themes_reply document_answers)
  end.

End Handlers.

(** ** Notions used to state further properties *)

(** [c] is a sentence of more than 500 characters of some stripped line of
    [text]. *)
Definition oversized_sentence (text c : string) : Prop :=
  500 < Str.len c
  /\ exists line,
       In line (Str.split Str.newline text)
       /\ In c (Str.split ". " (Str.strip line)).

(** A chunk is within the soft cap when it has at most 502 characters (two
    sentences that fit in 500 plus the separator), or is one oversized
    sentence. *)
Definition within_soft_cap (text c : string) : Prop :=
  Str.len c <= 502 \/ oversized_sentence text c.

(** What a chunk record holds apart from its [embedding_id]. *)
Definition payload (c : Chunk.t) : string * string * string * Z * nat :=
  (Chunk.doc_id c, Chunk.doc_name c, Chunk.text c, Chunk.page c, Chunk.chunk_id c).

(** The registry names exactly the documents that have a chunk. *)
Definition registry_matches (s : store) : Prop :=
  forall d, is_Some (document_metadata s !! d) <-> get_document_chunks s d ≠ [].

(** A string made of whitespace only. *)
Fixpoint blank (s : string) : bool :=
  match s with
  | EmptyString => true
  | String c rest => Str.isspace c && blank rest
  end.

(** The reference a theme makes to an entry of [document_answers]. *)
Definition ref_of (a : Answer.t) : DocRef.t :=
  DocRef.mk (Answer.doc_id a) (Answer.doc_name a) (Answer.page a).

(** Every document a theme lists is an entry of [document_answers]. *)
Definition cites_only (document_answers : list Answer.t) (t : Theme.t) : Prop :=
  Forall (fun r => exists a, a ∈ document_answers /\ r = ref_of a)
    (Theme.documents t).

(** The shape of a chunk record made by the upload handler: page 1, the
    file name as both id and name, and one number as [chunk_id] and
    [embedding_id]. *)
Definition uploaded_shape (c : Chunk.t) : Prop :=
  Chunk.page c = 1
  /\ Chunk.doc_name c = Chunk.doc_id c
  /\ Chunk.chunk_id c = Chunk.embedding_id c.

(** A registry entry never counts more chunks than its document has, nor
    fewer than one. *)
Definition counts_sound (s : store) : Prop :=
  forall d m,
    document_metadata s !! d = Some m ->
    (1 <= Meta.chunk_count m <= length (get_document_chunks s d))%nat.

(** ** Sample data *)

Module Sample.

(** A toy encoder: the length of the text as a one-dimensional vector. *)
Definition toy (s : string) : vec := [Z.of_nat (String.length s)].

Definition paris : string := "Paris is the capital of France.".
Definition eiffel : string := "The Eiffel Tower is in Paris.".
Definition berlin : string := "Berlin is the capital of Germany.".

(** Two lines of at least twenty characters each. *)
Definition text_A : string := paris +:+ Str.newline +:+ eiffel.

(** One paragraph of 617 characters whose first sentence has 600. *)
Definition long_sentence : string := Str.replicate 600 "a".
Definition long_text : string :=
  long_sentence +:+ ". " +:+ "and a short one".

(** The store after ingesting document [A], then document [B]. *)
Definition store_A : store :=
  (add_document toy text_A "A" "A" 1 "t0" empty_store).2.
Definition store_AB : store :=
  (add_document toy berlin "B" "B" 1 "t1" store_A).2.

(** For any encoder: document [B] ingested first, then document [A]. *)
Definition store_BA (embed : string -> vec) : store :=
  run embed [Ingest berlin "B" "B" 1 "t0"; Ingest paris "A" "A" 1 "t1"]
    empty_store.

(** File contents for the examples: what was written, or bytes that no
    reader accepts. *)
Inductive blob :=
| IndexBlob (i : list vec)
| ChunkBlob (c : list Chunk.t)
| MetaBlob (m : gmap string Meta.t)
| Garbage.

Definition read_index (b : blob) : outcome (list vec) :=
  match b with IndexBlob i => Returned i | _ => Raised IOError end.
Definition json_load (b : blob) : outcome (list Chunk.t) :=
  match b with ChunkBlob c => Returned c | _ => Raised IOError end.
Definition pickle_load (b : blob) : outcome (gmap string Meta.t) :=
  match b with MetaBlob m => Returned m | _ => Raised IOError end.

(** A storage directory whose chunk file is corrupt. *)
Definition corrupt_disk : disk blob :=
  Disk blob (Some (IndexBlob [[1]; [2]])) (Some Garbage) None.

End Sample.

(** * Properties of the chunker *)

Lemma len_append (a b : string) : Str.len (a +:+ b) = Str.len a + Str.len b.
Proof.
  unfold Str.len. induction a as [|c a IH].
  - change (EmptyString +:+ b) with b. simpl. lia.
  - change (String c a +:+ b) with (String c (a +:+ b)).
    cbn [String.length]. lia.
Qed.

Lemma len_nonneg (a : string) : 0 <= Str.len a.
Proof. unfold Str.len. lia. Qed.

Lemma truthy_len (a : string) : 0 < Str.len a -> Str.truthy a = true.
Proof. destruct a; simpl; [unfold Str.len; simpl; lia | reflexivity]. Qed.

(** Every piece of a split is no longer than the text that was split. *)
Lemma split_scan_len sep (s : string) :
  forall skip cur x,
    In x (Str.split_scan sep skip cur s) ->
    Str.len x <= Str.len cur + Str.len s.
Proof.
  induction s as [|c rest IH]; intros skip cur x Hx;
    cbn [Str.split_scan] in Hx.
  - destruct Hx as [<-|[]]. pose proof (len_nonneg EmptyString). lia.
  - assert (Hc : Str.len (String c rest) = 1 + Str.len rest)
      by (unfold Str.len; simpl; lia).
    pose proof (len_nonneg cur) as Hcur.
    destruct skip as [|k].
    + destruct (String.prefix sep (String c rest)).
      * destruct Hx as [<-|Hx]; [pose proof (len_nonneg rest); lia|].
        apply IH in Hx. change (Str.len EmptyString) with 0 in Hx. lia.
      * apply IH in Hx. rewrite len_append in Hx.
        change (Str.len (String c EmptyString)) with 1 in Hx. lia.
    + apply IH in Hx. lia.
Qed.

Lemma split_len sep s x : In x (Str.split sep s) -> Str.len x <= Str.len s.
Proof.
  intros Hx. apply split_scan_len in Hx.
  change (Str.len EmptyString) with 0 in Hx. lia.
Qed.

Section Chunker.

Variable min_length : Z.

Local Abbreviation long_enough := (fun c : string => min_length <= Str.len c).

(** The sentence loop only ever adds to [final_chunks]. *)
Lemma sentence_loop_keeps sentences :
  forall cur acc x,
    In x acc -> In x (sentence_loop min_length sentences cur acc).2.
Proof.
  induction sentences as [|sent rest IH]; intros cur acc x Hx; simpl; [exact Hx|].
  destruct (500 <? Str.len cur + Str.len sent); apply IH; [|exact Hx].
  destruct (min_length <=? Str.len cur); [|exact Hx].
  apply in_or_app. now left.
Qed.

(** Whatever the sentence loop flushes meets the minimum length. *)
Lemma sentence_loop_min sentences :
  forall cur acc,
    Forall long_enough acc ->
    Forall long_enough (sentence_loop min_length sentences cur acc).2.
Proof.
  induction sentences as [|sent rest IH]; intros cur acc Hacc; simpl; [exact Hacc|].
  destruct (500 <? Str.len cur + Str.len sent); apply IH; [|exact Hacc].
  destruct (min_length <=? Str.len cur) eqn:E; [|exact Hacc].
  apply Forall_app. split; [exact Hacc|].
  constructor; [|constructor]. now apply Z.leb_le.
Qed.

Lemma split_paragraph_min para acc :
  long_enough para ->
  Forall long_enough acc ->
  Forall long_enough (split_paragraph min_length para acc).
Proof.
  intros Hp Hacc. unfold split_paragraph.
  destruct (500 <? Str.len para).
  - pose proof (sentence_loop_min (Str.split ". " para) EmptyString acc Hacc) as H.
    destruct (sentence_loop _ _ _ _) as [cur acc']; simpl in H.
    destruct (Str.truthy cur); simpl; [|exact H].
    destruct (min_length <=? Str.len cur) eqn:E; [|exact H].
    apply Forall_app. split; [exact H|].
    constructor; [|constructor]. now apply Z.leb_le.
  - apply Forall_app. split; [exact Hacc|]. now repeat constructor.
Qed.

Lemma paragraph_loop_min paragraphs :
  forall acc,
    Forall long_enough paragraphs ->
    Forall long_enough acc ->
    Forall long_enough (paragraph_loop min_length paragraphs acc).
Proof.
  induction paragraphs as [|para rest IH]; intros acc Hps Hacc; simpl; [exact Hacc|].
  inversion Hps; subst. apply IH; [assumption|].
  now apply split_paragraph_min.
Qed.

Lemma paragraphs_of_min text : Forall long_enough (paragraphs_of text min_length).
Proof.
  apply List.Forall_forall. intros p Hp.
  apply filter_In in Hp as [_ Hp]. now apply Z.leb_le in Hp.
Qed.

(** A buffer longer than the cap is flushed by the next sentence, or is
    still the buffer when the sentences run out. *)
Lemma sentence_loop_oversized_buffer sentences cur acc :
  500 < Str.len cur ->
  min_length <= Str.len cur ->
  In cur (sentence_loop min_length sentences cur acc).2
  \/ (sentence_loop min_length sentences cur acc).1 = cur.
Proof.
  intros Hbig Hmin. destruct sentences as [|sent rest]; simpl; [now right|].
  pose proof (len_nonneg sent).
  replace (500 <? Str.len cur + Str.len sent) with true
    by (symmetry; apply Z.ltb_lt; lia).
  replace (min_length <=? Str.len cur) with true
    by (symmetry; now apply Z.leb_le).
  left. apply sentence_loop_keeps, in_or_app. right. now left.
Qed.

Lemma sentence_loop_oversized sent sentences :
  forall cur acc,
    In sent sentences ->
    500 < Str.len sent ->
    min_length <= 500 ->
    In sent (sentence_loop min_length sentences cur acc).2
    \/ (sentence_loop min_length sentences cur acc).1 = sent.
Proof.
  induction sentences as [|s0 rest IH]; intros cur acc Hin Hbig Hmin; [destruct Hin|].
  destruct Hin as [->|Hin].
  - simpl. pose proof (len_nonneg cur).
    replace (500 <? Str.len cur + Str.len sent) with true
      by (symmetry; apply Z.ltb_lt; lia).
    apply sentence_loop_oversized_buffer; lia.
  - simpl. destruct (500 <? Str.len cur + Str.len s0); now apply IH.
Qed.

Lemma split_paragraph_keeps para acc x :
  In x acc -> In x (split_paragraph min_length para acc).
Proof.
  intros Hx. unfold split_paragraph.
  destruct (500 <? Str.len para).
  - pose proof (sentence_loop_keeps (Str.split ". " para) EmptyString acc x Hx) as H.
    destruct (sentence_loop _ _ _ _) as [cur acc']; simpl in H.
    destruct (Str.truthy cur && (min_length <=? Str.len cur)); [|exact H].
    apply in_or_app. now left.
  - apply in_or_app. now left.
Qed.

Lemma split_paragraph_oversized para sent acc :
  In sent (Str.split ". " para) ->
  500 < Str.len sent ->
  min_length <= 500 ->
  In sent (split_paragraph min_length para acc).
Proof.
  intros Hin Hbig Hmin. unfold split_paragraph.
  pose proof (split_len _ _ _ Hin) as Hlen.
  replace (500 <? Str.len para) with true by (symmetry; apply Z.ltb_lt; lia).
  pose proof (sentence_loop_oversized sent _ EmptyString acc Hin Hbig Hmin) as H.
  destruct (sentence_loop _ _ _ _) as [cur acc']; simpl in H.
  destruct H as [H| ->].
  - destruct (Str.truthy cur && (min_length <=? Str.len cur)); [|exact H].
    apply in_or_app. now left.
  - rewrite truthy_len by lia.
    replace (min_length <=? Str.len sent) with true
      by (symmetry; apply Z.leb_le; lia).
    simpl. apply in_or_app. right. now left.
Qed.

Lemma paragraph_loop_keeps paragraphs :
  forall acc x, In x acc -> In x (paragraph_loop min_length paragraphs acc).
Proof.
  induction paragraphs as [|para rest IH]; intros acc x Hx; simpl; [exact Hx|].
  now apply IH, split_paragraph_keeps.
Qed.

Lemma paragraph_loop_emits para x paragraphs :
  forall acc,
    In para paragraphs ->
    (forall acc', In x (split_paragraph min_length para acc')) ->
    In x (paragraph_loop min_length paragraphs acc).
Proof.
  induction paragraphs as [|p0 rest IH]; intros acc Hin Hx; [destruct Hin|].
  destruct Hin as [->|Hin]; simpl.
  - apply paragraph_loop_keeps, Hx.
  - now apply IH.
Qed.

End Chunker.

(** C5. Chunking minimum length: every chunk that [_split_text] emits, for
    any text and any [min_length], is at least [min_length] characters long.
    This covers the chunk made of a single sentence above the cap of 500 as
    well, so the exception the property allows for is not needed. *)
Theorem split_text_min_length (text : string) (min_length : Z) :
  Forall (fun chunk => min_length <= Str.len chunk) (_split_text text min_length).
Proof.
  unfold _split_text.
  apply paragraph_loop_min; [apply paragraphs_of_min | constructor].
Qed.

(** C6. Oversized sentence preserved: when a line of the text, once
    stripped, holds a sentence of more than 500 characters, that sentence is
    one of the emitted chunks, whole.  ([min_length] is at most the cap, as
    it is for the default of 20.) *)
Theorem split_text_oversized_sentence (text : string) (min_length : Z)
    (line sent : string) :
  min_length <= 500 ->
  In line (Str.split Str.newline text) ->
  In sent (Str.split ". " (Str.strip line)) ->
  500 < Str.len sent ->
  In sent (_split_text text min_length).
Proof.
  intros Hmin Hline Hsent Hbig. unfold _split_text.
  apply paragraph_loop_emits with (para := Str.strip line).
  - unfold paragraphs_of. apply filter_In. split.
    + apply in_map_iff. now exists line.
    + apply Z.leb_le. pose proof (split_len _ _ _ Hsent). lia.
  - intros acc'. now apply split_paragraph_oversized.
Qed.

Lemma split_text_oversized_sentence_witness :
  In Sample.long_sentence (_split_text Sample.long_text default_min_length).
Proof.
  apply (split_text_oversized_sentence Sample.long_text default_min_length
           Sample.long_text Sample.long_sentence).
  - unfold default_min_length. lia.
  - vm_compute. left. reflexivity.
  - vm_compute. left. reflexivity.
  - vm_compute. reflexivity.
Defined.

(** * Properties of the store *)

Ltac run_M :=
  unfold try_except, mbind, M_bind, bind, mret, M_ret, ret, raise, get,
    lift, set_index, set_chunks, set_document_metadata, index_add,
    chunks_append, py_mod in *;
  simpl in *.

Section StoreFacts.

Variable embed : string -> vec.

Lemma add_chunk_ok doc_id doc_name page_count n i para s :
  page_count ≠ 0 ->
  add_chunk doc_id doc_name page_count n i para s
  = (Returned tt,
     Store (index s)
       (chunks s ++ [Chunk.mk doc_id doc_name para
                       (Z.of_nat i mod page_count + 1)
                       (length (chunks s)) (ntotal s - n + i)])
       (document_metadata s)).
Proof.
  intros Hpc. apply Z.eqb_neq in Hpc.
  unfold add_chunk. run_M. now rewrite Hpc.
Qed.

Lemma add_chunk_zero doc_id doc_name n i para s :
  add_chunk doc_id doc_name 0 n i para s = (Raised ZeroDivisionError, s).
Proof. reflexivity. Qed.

(** The loop of [add_document] in closed form, for a page count other
    than zero. *)
Lemma add_loop doc_id doc_name page_count n paragraphs :
  page_count ≠ 0 ->
  forall start s,
    for_enumerate start paragraphs (add_chunk doc_id doc_name page_count n) s
    = (Returned tt,
       Store (index s)
         (chunks s ++ ingested doc_id doc_name page_count
                        (length (chunks s)) (ntotal s) n start paragraphs)
         (document_metadata s)).
Proof.
  intros Hpc.
  induction paragraphs as [|para rest IH]; intros start s.
  - simpl. unfold mret, M_ret, ret. rewrite app_nil_r. now destruct s.
  - cbn [for_enumerate]. unfold mbind, M_bind, bind.
    rewrite add_chunk_ok by exact Hpc. rewrite IH. simpl.
    f_equal. f_equal.
    rewrite <- app_assoc. f_equal. unfold ingested. simpl.
    f_equal.
    + f_equal; [f_equal; f_equal; lia | lia | unfold ntotal; simpl; lia].
    + apply imap_ext. intros j x _. simpl. rewrite length_app. simpl.
      unfold ntotal. simpl.
      f_equal; [f_equal; f_equal; lia | lia | lia].
Qed.

(** *** [add_document] case by case *)

Lemma add_document_no_chunks text doc_id doc_name page_count now s :
  _split_text text default_min_length = [] ->
  add_document embed text doc_id doc_name page_count now s = (Returned false, s).
Proof. intros H. unfold add_document, try_except. now rewrite H. Qed.

Lemma add_document_zero text doc_id doc_name now s :
  _split_text text default_min_length ≠ [] ->
  add_document embed text doc_id doc_name 0 now s
  = (Returned false,
     Store (index s ++ encode embed (_split_text text default_min_length))
       (chunks s) (document_metadata s)).
Proof.
  intros H. unfold add_document, try_except.
  destruct (_split_text text default_min_length) as [|p ps]; [done|].
  reflexivity.
Qed.

Lemma add_document_ok text doc_id doc_name page_count now s :
  _split_text text default_min_length ≠ [] ->
  page_count ≠ 0 ->
  let paragraphs := _split_text text default_min_length in
  add_document embed text doc_id doc_name page_count now s
  = (Returned true,
     Store (index s ++ encode embed paragraphs)
       (chunks s ++ ingested doc_id doc_name page_count (length (chunks s))
                      (ntotal s + length paragraphs) (length paragraphs) 0
                      paragraphs)
       (<[doc_id := Meta.mk doc_name now page_count (length paragraphs)]>
          (document_metadata s))).
Proof.
  intros H Hpc paragraphs. unfold add_document, try_except.
  fold paragraphs.
  destruct paragraphs as [|p ps] eqn:E; [done|]. rewrite <- E.
  unfold mbind, M_bind, bind, index_add.
  rewrite add_loop by exact Hpc.
  cbn [index chunks document_metadata].
  unfold get, set_document_metadata, mret, M_ret, ret. simpl.
  unfold ntotal. simpl. rewrite length_app. unfold encode.
  now rewrite length_map.
Qed.

(** [add_document] never lets an exception out, and a refusal that comes
    from an empty chunking leaves the store alone. *)
Lemma add_document_returns text doc_id doc_name page_count now s :
  exists b, (add_document embed text doc_id doc_name page_count now s).1 = Returned b.
Proof.
  destruct (decide (_split_text text default_min_length = [])) as [E|E].
  - rewrite add_document_no_chunks by exact E. now exists false.
  - destruct (decide (page_count = 0)) as [->|Hpc].
    + rewrite add_document_zero by exact E. now exists false.
    + rewrite add_document_ok by assumption. now exists true.
Qed.

(** *** The chunk records of one ingest *)

Lemma ingested_length doc_id doc_name page_count len0 nt n start paragraphs :
  length (ingested doc_id doc_name page_count len0 nt n start paragraphs)
  = length paragraphs.
Proof. unfold ingested. apply length_imap. Qed.

Lemma ingested_lookup doc_id doc_name page_count len0 nt n start paragraphs j c :
  ingested doc_id doc_name page_count len0 nt n start paragraphs !! j = Some c ->
  exists para,
    paragraphs !! j = Some para
    /\ c = Chunk.mk doc_id doc_name para
             (Z.of_nat (start + j) mod page_count + 1)
             (len0 + j) (nt - n + (start + j)).
Proof.
  unfold ingested. rewrite list_lookup_imap.
  destruct (paragraphs !! j) as [para|]; simpl; [|done].
  intros [= <-]. now exists para.
Qed.

Lemma ingested_doc_id doc_id doc_name page_count len0 nt n start paragraphs :
  Forall (fun c => Chunk.doc_id c = doc_id)
    (ingested doc_id doc_name page_count len0 nt n start paragraphs).
Proof.
  apply Forall_lookup. intros j c Hc.
  apply ingested_lookup in Hc as (para & _ & ->). reflexivity.
Qed.

Lemma ingested_text doc_id doc_name page_count len0 nt n start paragraphs :
  Chunk.text <$> ingested doc_id doc_name page_count len0 nt n start paragraphs
  = paragraphs.
Proof.
  apply list_eq. intros j. rewrite list_lookup_fmap. unfold ingested.
  rewrite list_lookup_imap. now destruct (paragraphs !! j).
Qed.

Lemma ingested_embedding_id doc_id doc_name page_count len0 nt n start paragraphs :
  Chunk.embedding_id <$> ingested doc_id doc_name page_count len0 nt n start paragraphs
  = seq (nt - n + start) (length paragraphs).
Proof.
  apply list_eq. intros j. rewrite list_lookup_fmap. unfold ingested.
  rewrite list_lookup_imap.
  destruct (paragraphs !! j) as [para|] eqn:E; simpl.
  - apply lookup_lt_Some in E as Hj.
    symmetry. rewrite lookup_seq. split; [lia | exact Hj].
  - apply lookup_ge_None in E. symmetry. apply lookup_ge_None.
    now rewrite length_seq.
Qed.

(** *** The compaction helpers *)

Lemma renumber_lookup cs i :
  renumber cs !! i
  = (fun c => Chunk.mk (Chunk.doc_id c) (Chunk.doc_name c) (Chunk.text c)
                (Chunk.page c) (Chunk.chunk_id c) i) <$> cs !! i.
Proof. unfold renumber. apply list_lookup_imap. Qed.

Lemma renumber_length cs : length (renumber cs) = length cs.
Proof. unfold renumber. apply length_imap. Qed.

Lemma renumber_embedding_id cs :
  Chunk.embedding_id <$> renumber cs = seq 0 (length cs).
Proof.
  apply list_eq. intros j. rewrite list_lookup_fmap, renumber_lookup.
  destruct (cs !! j) as [c|] eqn:E; simpl.
  - apply lookup_lt_Some in E. symmetry. rewrite lookup_seq. split; [lia|done].
  - apply lookup_ge_None in E. symmetry. apply lookup_ge_None.
    now rewrite length_seq.
Qed.

Lemma renumber_text cs : Chunk.text <$> renumber cs = Chunk.text <$> cs.
Proof.
  apply list_eq. intros j. rewrite !list_lookup_fmap, renumber_lookup.
  now destruct (cs !! j).
Qed.

Lemma renumber_doc_id cs (P : string -> Prop) :
  Forall (fun c => P (Chunk.doc_id c)) cs ->
  Forall (fun c => P (Chunk.doc_id c)) (renumber cs).
Proof.
  rewrite !Forall_lookup. intros H j c. rewrite renumber_lookup.
  destruct (cs !! j) as [c0|] eqn:E; simpl; [|done].
  intros [= <-]. simpl. eapply H, E.
Qed.

(** Clearing mask entries: it succeeds exactly on in-range indices, and
    then switches off the named positions and no other. *)
Lemma mask_clear_spec ids :
  forall mask,
    Forall (fun i => i < length mask)%nat ids ->
    exists mask',
      mask_clear mask ids = Returned mask'
      /\ forall j, mask' !! j
                   = if bool_decide (j ∈ ids) then (fun _ => false) <$> mask !! j
                     else mask !! j.
Proof.
  induction ids as [|i rest IH]; intros mask Hids.
  - exists mask. split; [reflexivity|]. intros j.
    rewrite bool_decide_eq_false_2; [done | apply not_elem_of_nil].
  - inversion Hids as [|? ? Hi Hrest]; subst. simpl.
    apply Nat.ltb_lt in Hi as Hi'. rewrite Hi'.
    destruct (IH (<[i := false]> mask)) as (mask' & E & Hm).
    { now rewrite length_insert. }
    exists mask'. split; [exact E|]. intros j. rewrite Hm.
    destruct (decide (j = i)) as [->|Hne].
    + rewrite list_lookup_insert_eq by exact Hi.
      rewrite (bool_decide_eq_true_2 (i ∈ i :: rest)) by apply list_elem_of_here.
      apply lookup_lt_is_Some in Hi as [b ->]. simpl. now case_bool_decide.
    + rewrite list_lookup_insert_ne by done.
      destruct (decide (j ∈ rest)) as [Hj|Hj].
      * rewrite !bool_decide_eq_true_2; [done | now apply list_elem_of_further | done].
      * rewrite !bool_decide_eq_false_2; [done | | done].
        rewrite elem_of_cons. tauto.
Qed.

Lemma mask_select_fmap {A B} (f : A -> B) (P : A -> Prop)
    `{!forall x, Decision (P x)} (l : list A) :
  mask_select (f <$> l) ((fun x => bool_decide (P x)) <$> l) = f <$> filter P l.
Proof.
  induction l as [|x l IH]; [done|].
  rewrite !fmap_cons, filter_cons. cbn [mask_select].
  case_bool_decide.
  - rewrite decide_True by done. now rewrite fmap_cons, IH.
  - now rewrite decide_False by done.
Qed.

(** *** [delete_document] case by case *)

(** Either the call refuses and leaves the store as it was, or the mask
    was built and the three structures are replaced together. *)
Lemma delete_document_cases doc_id s :
  delete_document doc_id s = (Returned false, s)
  \/ exists keep_mask,
       is_Some (document_metadata s !! doc_id)
       /\ delete_indices (chunks s) doc_id ≠ []
       /\ mask_clear (replicate (ntotal s) true)
            (Chunk.embedding_id <$>
               filter (fun chunk => Chunk.doc_id chunk = doc_id) (chunks s))
          = Returned keep_mask
       /\ delete_document doc_id s
          = (Returned true,
             Store (mask_select (index s) keep_mask)
               (renumber
                  (filter (fun chunk => Chunk.doc_id chunk ≠ doc_id) (chunks s)))
               (delete doc_id (document_metadata s))).
Proof.
  unfold delete_document, try_except, mbind, M_bind, bind, get. simpl.
  destruct (document_metadata s !! doc_id) as [m|] eqn:Em; [|now left].
  destruct (delete_indices (chunks s) doc_id) as [|i0 is0] eqn:Ei; [now left|].
  unfold lift.
  destruct (mask_clear _ _) as [keep_mask|e] eqn:Ek; [|now left].
  right. exists keep_mask. repeat split; [by eexists | done].
Qed.

Lemma delete_indices_nil cs doc_id :
  delete_indices cs doc_id = []
  <-> filter (fun chunk => Chunk.doc_id chunk = doc_id) cs = [].
Proof.
  unfold delete_indices.
  assert (G : forall (f : nat -> nat),
    (filter (fun ic : nat * Chunk.t => Chunk.doc_id ic.2 = doc_id)
       (imap (fun i c => (f i, c)) cs)).*1 = []
    <-> filter (fun chunk => Chunk.doc_id chunk = doc_id) cs = []).
  { induction cs as [|c cs IH]; intros f; [done|].
    rewrite imap_cons, !filter_cons. simpl.
    destruct (decide (Chunk.doc_id c = doc_id)); [done|].
    apply (IH (f ∘ S)). }
  apply (G id).
Qed.

(** *** The dense id invariant *)

Lemma in_step_length s : in_step embed s -> length (chunks s) = ntotal s.
Proof.
  intros [Hid _]. apply (f_equal length) in Hid.
  now rewrite length_fmap, length_seq in Hid.
Qed.

Lemma in_step_position s i c :
  in_step embed s -> chunks s !! i = Some c -> Chunk.embedding_id c = i.
Proof.
  intros [Hid _] Hc.
  assert (H : (Chunk.embedding_id <$> chunks s) !! i = Some (Chunk.embedding_id c))
    by (rewrite list_lookup_fmap, Hc; reflexivity).
  rewrite Hid in H. apply lookup_seq in H. lia.
Qed.

Lemma in_step_dense s : in_step embed s -> dense_ids embed s.
Proof.
  intros Hs. pose proof Hs as [Hid Hix]. repeat split.
  - rewrite Hid. apply NoDup_seq.
  - rewrite Hid, elem_of_seq. lia.
  - rewrite Hid, elem_of_seq. lia.
  - intros i c. now apply in_step_position.
  - intros c Hc. apply list_elem_of_lookup in Hc as [i Hi].
    rewrite (in_step_position s i c Hs Hi), Hix, list_lookup_fmap, Hi.
    reflexivity.
Qed.

Lemma in_step_empty : in_step embed empty_store.
Proof. split; reflexivity. Qed.

Lemma in_step_add text doc_id doc_name page_count now s :
  page_count ≠ 0 ->
  in_step embed s ->
  in_step embed (add_document embed text doc_id doc_name page_count now s).2.
Proof.
  intros Hpc Hs.
  destruct (decide (_split_text text default_min_length = [])) as [E|E].
  { now rewrite add_document_no_chunks. }
  rewrite add_document_ok by assumption. simpl.
  pose proof (in_step_length s Hs) as Hlen. destruct Hs as [Hid Hix].
  split; simpl.
  - rewrite fmap_app, Hid, ingested_embedding_id.
    unfold ntotal, encode. simpl. rewrite length_app, length_map.
    rewrite seq_app. f_equal. f_equal. unfold ntotal. lia.
  - rewrite fmap_app, <- Hix. f_equal. unfold encode.
    rewrite <- (ingested_text doc_id doc_name page_count (length (chunks s))
                  (ntotal s + length (_split_text text default_min_length))
                  (length (_split_text text default_min_length)) 0
                  (_split_text text default_min_length)) at 1.
    now rewrite <- list_fmap_compose.
Qed.

(** Under the invariant the keep-mask is the list of "not of this
    document" flags of the chunks, position by position. *)
Lemma in_step_mask doc_id s :
  in_step embed s ->
  mask_clear (replicate (ntotal s) true)
    (Chunk.embedding_id <$>
       filter (fun chunk => Chunk.doc_id chunk = doc_id) (chunks s))
  = Returned ((fun c => bool_decide (Chunk.doc_id c ≠ doc_id)) <$> chunks s).
Proof.
  intros Hs. pose proof (in_step_length s Hs) as Hlen.
  destruct (mask_clear_spec
              (Chunk.embedding_id <$>
                 filter (fun chunk => Chunk.doc_id chunk = doc_id) (chunks s))
              (replicate (ntotal s) true)) as (mask' & E & Hm).
  { apply Forall_forall. intros i Hi.
    apply list_elem_of_fmap in Hi as (c & -> & Hc).
    apply list_elem_of_filter in Hc as [_ Hc].
    apply list_elem_of_lookup in Hc as [j Hj].
    rewrite (in_step_position s j c Hs Hj), length_replicate, <- Hlen.
    eapply lookup_lt_Some, Hj. }
  rewrite E. f_equal. apply list_eq. intros j. rewrite Hm, list_lookup_fmap.
  destruct (chunks s !! j) as [c|] eqn:Ej; simpl.
  - assert (Hj : (j < ntotal s)%nat)
      by (rewrite <- Hlen; eapply lookup_lt_Some, Ej).
    rewrite (lookup_replicate_2 _ _ _ Hj). simpl.
    destruct (decide (Chunk.doc_id c = doc_id)) as [Hd|Hd].
    + rewrite bool_decide_eq_true_2.
      * now rewrite bool_decide_eq_false_2 by tauto.
      * apply list_elem_of_fmap. exists c. split.
        -- symmetry. eapply in_step_position; eassumption.
        -- apply list_elem_of_filter. split; [done|].
           eapply list_elem_of_lookup_2, Ej.
    + rewrite bool_decide_eq_false_2.
      * now rewrite bool_decide_eq_true_2.
      * intros Hin. apply list_elem_of_fmap in Hin as (c' & Hc' & Hf).
        apply list_elem_of_filter in Hf as [Hd' Hin'].
        apply list_elem_of_lookup in Hin' as [i Hi].
        rewrite (in_step_position s i c' Hs Hi) in Hc'. subst i.
        congruence.
  - apply lookup_ge_None in Ej. rewrite Hlen in Ej.
    rewrite (proj2 (lookup_ge_None (replicate (ntotal s) true) j))
      by now rewrite length_replicate.
    now case_bool_decide.
Qed.

Lemma in_step_delete doc_id s :
  in_step embed s -> in_step embed (delete_document doc_id s).2.
Proof.
  intros Hs.
  destruct (delete_document_cases doc_id s) as [->|(mask & _ & _ & Hk & ->)];
    [exact Hs|].
  rewrite in_step_mask in Hk by exact Hs. injection Hk as <-.
  destruct Hs as [Hid Hix]. split; simpl.
  - rewrite renumber_embedding_id. unfold ntotal. simpl.
    rewrite Hix, mask_select_fmap. now rewrite length_fmap.
  - rewrite Hix, mask_select_fmap.
    rewrite (list_fmap_compose Chunk.text embed).
    rewrite (list_fmap_compose Chunk.text embed (renumber _)).
    now rewrite renumber_text.
Qed.

Lemma in_step_run ops :
  forall s,
    Forall usable ops -> in_step embed s -> in_step embed (run embed ops s).
Proof.
  induction ops as [|o ops IH]; intros s Hok Hs; [exact Hs|].
  inversion Hok as [|? ? Ho Hops]; subst. simpl. apply IH; [exact Hops|].
  destruct o as [text doc_id doc_name page_count now | doc_id]; simpl.
  - now apply in_step_add.
  - now apply in_step_delete.
Qed.

(** The dense id invariant holds after every run of ingests and deletes
    from the empty store in which no ingest passes a page count of zero. *)
Lemma dense_ids_run ops :
  Forall usable ops -> dense_ids embed (run embed ops empty_store).
Proof.
  intros Hok. apply in_step_dense, in_step_run; [exact Hok | apply in_step_empty].
Qed.

(** *** Search *)

Lemma filter_none {A} (P : A -> Prop) `{!forall x, Decision (P x)} (l : list A) :
  Forall (fun x => ~ P x) l -> filter P l = [].
Proof.
  induction 1 as [|x l Hx _ IH]; [done|].
  now rewrite filter_cons, decide_False.
Qed.

Lemma filter_all {A} (P : A -> Prop) `{!forall x, Decision (P x)} (l : list A) :
  Forall P l -> filter P l = l.
Proof.
  induction 1 as [|x l Hx _ IH]; [done|].
  now rewrite filter_cons, decide_True, IH.
Qed.

Lemma omap_all_None {A B} (f : A -> option B) (l : list A) :
  (forall x, f x = None) -> omap f l = [].
Proof.
  intros H. induction l as [|x l IH]; [done|]. simpl. now rewrite H.
Qed.

(** A filter on one document discards every chunk of a store that holds
    no chunk of that document. *)
Lemma search_step_absent s doc_id h :
  Forall (fun c => Chunk.doc_id c ≠ doc_id) (chunks s) ->
  search_step s (Some [doc_id]) h = None.
Proof.
  intros Hall. destruct h as [idx dist]. unfold search_step.
  destruct (length (chunks s) <=? idx)%nat; [done|].
  destruct (chunks s !! idx) as [chunk|] eqn:E; [|done].
  rewrite Forall_lookup in Hall. specialize (Hall idx chunk E).
  unfold filtered_out. rewrite bool_decide_eq_true_2; [done|].
  rewrite list_elem_of_singleton. exact Hall.
Qed.

End StoreFacts.

(** * Properties of the search *)

Lemma l2_nonneg (q v : vec) : 0 <= l2 q v.
Proof.
  revert v. induction q as [|x q IH]; intros [|y v]; simpl; try lia.
  specialize (IH v). pose proof (Z.square_nonneg (x - y)). lia.
Qed.

Lemma l2_self (q : vec) : l2 q q = 0.
Proof. induction q as [|x q IH]; simpl; [reflexivity|]. rewrite IH. lia. Qed.

#[local] Instance hit_lt_trans : Transitive hit_lt.
Proof. intros [i a] [j b] [k c]; unfold hit_lt; simpl; lia. Qed.

Lemma hit_le_lt a b : hit_le a b = true -> a.1 ≠ b.1 -> hit_lt a b.
Proof.
  destruct a as [i x], b as [j y]. unfold hit_le, hit_lt. simpl.
  rewrite orb_true_iff, andb_true_iff, Z.ltb_lt, Z.eqb_eq, Nat.leb_le. lia.
Qed.

Lemma hit_le_false a b : hit_le a b = false -> hit_lt b a.
Proof.
  destruct a as [i x], b as [j y]. unfold hit_le, hit_lt. simpl.
  rewrite orb_false_iff, andb_false_iff, Z.ltb_ge, Z.eqb_neq, Nat.leb_gt. lia.
Qed.

Lemma hit_insert_Forall (P : nat * Z -> Prop) a l :
  P a -> Forall P l -> Forall P (hit_insert a l).
Proof.
  intros Ha. induction 1 as [|b l Hb Hl IH]; simpl.
  - now repeat constructor.
  - destruct (hit_le a b); repeat constructor; assumption.
Qed.

Lemma hit_sort_Forall (P : nat * Z -> Prop) l :
  Forall P l -> Forall P (hit_sort l).
Proof.
  induction 1 as [|a l Ha Hl IH]; simpl; [constructor|].
  now apply hit_insert_Forall.
Qed.

(** Inserting a hit with a fresh id keeps the list in order. *)
Lemma hit_insert_sorted a l :
  Forall (fun b => a.1 ≠ b.1) l ->
  StronglySorted hit_lt l ->
  StronglySorted hit_lt (hit_insert a l).
Proof.
  intros Hfresh Hs. induction Hs as [|b l Hs IH Hb]; simpl.
  - repeat constructor.
  - inversion Hfresh as [|? ? Hab Hfresh']; subst.
    destruct (hit_le a b) eqn:E.
    + constructor; [now constructor|].
      apply hit_le_lt in E; [|exact Hab].
      constructor; [exact E|].
      eapply Forall_impl; [exact Hb|]. intros c Hc. now transitivity b.
    + constructor; [now apply IH|].
      apply hit_insert_Forall; [now apply hit_le_false | exact Hb].
Qed.

Lemma hit_sort_sorted l : NoDup l.*1 -> StronglySorted hit_lt (hit_sort l).
Proof.
  induction l as [|a l IH]; intros Hnd; simpl; [constructor|].
  rewrite fmap_cons in Hnd. apply NoDup_cons in Hnd as [Ha Hnd].
  apply hit_insert_sorted; [|now apply IH].
  apply hit_sort_Forall, Forall_forall. intros b Hb Heq.
  apply Ha. rewrite Heq. apply list_elem_of_fmap. now exists b.
Qed.

Lemma scored_labels (q : vec) (idx : list vec) :
  (imap (fun i v => (i, l2 q v)) idx).*1 = seq 0 (length idx).
Proof.
  apply list_eq. intros j. rewrite list_lookup_fmap, list_lookup_imap.
  destruct (idx !! j) as [v|] eqn:E; simpl.
  - symmetry. rewrite lookup_seq. split; [lia | eapply lookup_lt_Some, E].
  - apply lookup_ge_None in E. symmetry. apply lookup_ge_None.
    now rewrite length_seq.
Qed.

(** The hits of the index are in order, and each carries the distance from
    the query to the vector its id names. *)
Lemma index_search_sorted idx q k : StronglySorted hit_lt (index_search idx q k).
Proof.
  unfold index_search.
  eapply StronglySorted_app_1_l. rewrite take_drop.
  apply hit_sort_sorted. rewrite scored_labels. apply NoDup_seq.
Qed.

Lemma index_search_distance idx q k :
  Forall (fun h => exists v, idx !! h.1 = Some v /\ h.2 = l2 q v)
    (index_search idx q k).
Proof.
  unfold index_search. apply Forall_take, hit_sort_Forall, Forall_forall.
  intros h Hh. apply elem_of_lookup_imap in Hh as (i & v & -> & Hv).
  now exists v.
Qed.

Lemma omap_sorted {A B} (R : relation A) (R' : relation B) (f : A -> option B) l :
  (forall x y x' y', R x y -> f x = Some x' -> f y = Some y' -> R' x' y') ->
  StronglySorted R l -> StronglySorted R' (omap f l).
Proof.
  intros Hf. induction 1 as [|x l Hs IH Hx]; simpl; [constructor|].
  destruct (f x) as [x'|] eqn:E; [|exact IH].
  constructor; [exact IH|].
  apply Forall_forall. intros y' Hy'.
  apply list_elem_of_omap in Hy' as (y & Hy & Ey).
  rewrite Forall_forall in Hx. eapply Hf; [apply Hx, Hy | exact E | exact Ey].
Qed.

Lemma search_step_Some s doc_filter idx dist r :
  search_step s doc_filter (idx, dist) = Some r ->
  chunks s !! idx = Some (res_chunk r)
  /\ distance r = dist
  /\ score r = 1 - dist
  /\ filtered_out doc_filter (res_chunk r) = false.
Proof.
  unfold search_step.
  destruct (length (chunks s) <=? idx)%nat; [done|].
  destruct (chunks s !! idx) as [chunk|]; [|done].
  destruct (filtered_out doc_filter chunk) eqn:E; [done|].
  now intros [= <-].
Qed.

(** C1. Dense id invariant.  The invariant holds along every run whose
    ingests pass a page count other than zero ([dense_ids_run]); it does not
    hold "for every sequence": an ingest with [page_count = 0] adds its
    vectors to the index, then the page computation of the first chunk
    divides by zero, the handler answers [False], and the index is left one
    vector ahead of the chunk list. *)
Theorem dense_ids_broken_by_zero_page_count (embed : string -> vec) :
  let s := run embed [Ingest Sample.berlin "B" "B" 0 "t0"] empty_store in
  add_document embed Sample.berlin "B" "B" 0 "t0" empty_store
  = (Returned false, s)
  /\ index s = [embed Sample.berlin]
  /\ chunks s = []
  /\ ~ dense_ids embed s.
Proof.
  repeat split; try reflexivity.
  intros (_ & Hids & _). specialize (Hids 0%nat). apply proj2 in Hids.
  assert (H : 0%nat ∈ @nil nat); [|inversion H].
  apply Hids. unfold ntotal. simpl. lia.
Qed.

(** C2. Delete completeness: once [delete_document d] has answered [True],
    the document has no chunk left, is absent from the registry, and a search
    filtered on it alone returns nothing, whatever the query and [top_k]. *)
Theorem delete_complete (embed : string -> vec) (s s' : store) (d : string) :
  delete_document d s = (Returned true, s') ->
  get_document_chunks s' d = []
  /\ document_metadata s' !! d = None
  /\ forall query top_k, search embed s' query top_k (Some [d]) = [].
Proof.
  intros Hdel.
  destruct (delete_document_cases d s) as [E|(mask & _ & _ & _ & E)];
    rewrite E in Hdel; [discriminate|].
  injection Hdel as <-.
  assert (Hall : Forall (fun c => Chunk.doc_id c ≠ d)
                   (renumber (filter (fun chunk => Chunk.doc_id chunk ≠ d) (chunks s)))).
  { apply (renumber_doc_id _ (fun x => x ≠ d)).
    apply Forall_forall. intros c Hc. now apply list_elem_of_filter in Hc as [? _]. }
  split; [|split].
  - unfold get_document_chunks. simpl.
    apply filter_none. eapply Forall_impl; [exact Hall|]. intros c Hc. exact Hc.
  - simpl. apply lookup_delete_eq.
  - intros query top_k. unfold search.
    destruct (ntotal _ =? 0)%nat; [done|].
    apply omap_all_None. intros h. now apply search_step_absent.
Qed.

Lemma delete_complete_witness :
  get_document_chunks (delete_document "A" Sample.store_AB).2 "A" = []
  /\ document_metadata (delete_document "A" Sample.store_AB).2 !! "A" = None
  /\ forall query top_k,
       search Sample.toy (delete_document "A" Sample.store_AB).2 query top_k
         (Some ["A"]) = [].
Proof.
  apply (delete_complete Sample.toy Sample.store_AB _ "A").
  vm_compute. reflexivity.
Defined.

(** C4. Recoverable no-effect policy.  (1) An ingest whose text yields no
    chunk answers [False]; (2) a search on a store without vectors returns
    the empty list; (3) deleting a document that is not registered, or that
    has no chunk, answers [False].  In each case the call returns normally
    and the store is the one it started from. *)
Theorem no_effect_policy (embed : string -> vec) :
  (forall s text doc_id doc_name page_count now,
      _split_text text default_min_length = [] ->
      add_document embed text doc_id doc_name page_count now s
      = (Returned false, s))
  /\ (forall s query top_k doc_filter,
        ntotal s = 0%nat -> search embed s query top_k doc_filter = [])
  /\ (forall s doc_id,
        document_metadata s !! doc_id = None
        \/ get_document_chunks s doc_id = [] ->
        delete_document doc_id s = (Returned false, s)).
Proof.
  split; [|split].
  - intros. now apply add_document_no_chunks.
  - intros s query top_k doc_filter H. unfold search. now rewrite H.
  - intros s doc_id H.
    destruct (delete_document_cases doc_id s) as [E|(mask & Hm & Hi & _)];
      [exact E|].
    destruct H as [H|H].
    + rewrite H in Hm. now destruct Hm.
    + apply delete_indices_nil in H. contradiction.
Qed.

Lemma no_effect_policy_witness :
  add_document Sample.toy "too short" "C" "C" 1 "t2" Sample.store_AB
  = (Returned false, Sample.store_AB)
  /\ search Sample.toy empty_store Sample.paris 5 None = []
  /\ delete_document "Z" Sample.store_AB = (Returned false, Sample.store_AB).
Proof.
  destruct (no_effect_policy Sample.toy) as (Hadd & Hsearch & Hdel).
  split; [|split].
  - apply Hadd. vm_compute. reflexivity.
  - apply Hsearch. reflexivity.
  - apply Hdel. left. vm_compute. reflexivity.
Defined.

(** C9. Re-ingest duplicates chunks.  When a document that already has
    chunks is ingested again and the ingest goes through, the chunk list is
    the old one followed by the new records, so the chunks of the document
    are those of both ingests, and its registry entry is the new one alone:
    [chunk_count] is the number of chunks of the latest ingest. *)
Theorem reingest_duplicates (embed : string -> vec) (s s' : store)
    (text doc_id doc_name : string) (page_count : Z) (now : string) :
  get_document_chunks s doc_id ≠ [] ->
  add_document embed text doc_id doc_name page_count now s = (Returned true, s') ->
  exists new,
    new ≠ []
    /\ Chunk.text <$> new = _split_text text default_min_length
    /\ chunks s' = chunks s ++ new
    /\ get_document_chunks s' doc_id = get_document_chunks s doc_id ++ new
    /\ document_metadata s' !! doc_id
       = Some (Meta.mk doc_name now page_count (length new)).
Proof.
  intros _ Hadd.
  destruct (decide (_split_text text default_min_length = [])) as [E|E].
  { rewrite add_document_no_chunks in Hadd by exact E. discriminate. }
  destruct (decide (page_count = 0)) as [->|Hpc].
  { rewrite add_document_zero in Hadd by exact E. discriminate. }
  rewrite add_document_ok in Hadd by assumption. injection Hadd as <-.
  exists (ingested doc_id doc_name page_count (length (chunks s))
            (ntotal s + length (_split_text text default_min_length))
            (length (_split_text text default_min_length)) 0
            (_split_text text default_min_length)).
  split; [|split; [|split; [|split]]].
  - intros Hnil. apply (f_equal length) in Hnil.
    rewrite ingested_length in Hnil.
    destruct (_split_text text default_min_length); [done|discriminate].
  - apply ingested_text.
  - reflexivity.
  - unfold get_document_chunks. simpl. rewrite filter_app. f_equal.
    apply filter_all, ingested_doc_id.
  - simpl. rewrite lookup_insert_eq, ingested_length. reflexivity.
Qed.

Lemma reingest_duplicates_witness :
  exists new,
    new ≠ []
    /\ Chunk.text <$> new = _split_text Sample.berlin default_min_length
    /\ chunks (add_document Sample.toy Sample.berlin "A" "A2" 3 "t2" Sample.store_AB).2
       = chunks Sample.store_AB ++ new
    /\ get_document_chunks
         (add_document Sample.toy Sample.berlin "A" "A2" 3 "t2" Sample.store_AB).2 "A"
       = get_document_chunks Sample.store_AB "A" ++ new
    /\ document_metadata
         (add_document Sample.toy Sample.berlin "A" "A2" 3 "t2" Sample.store_AB).2 !! "A"
       = Some (Meta.mk "A2" "t2" 3 (length new)).
Proof.
  apply (reingest_duplicates Sample.toy Sample.store_AB _ Sample.berlin "A" "A2" 3 "t2").
  - vm_compute. discriminate.
  - vm_compute. reflexivity.
Defined.

(** C3. Search result ordering.  On a store with at least one vector whose
    chunks sit at the positions their ids name, the results of a search come
    in ascending order of distance, a tie going to the lower embedding id,
    and the distance of a result is the L2 distance from the query vector to
    the vector of its chunk. *)
Theorem search_sorted (embed : string -> vec) (s : store) (query : string)
    (top_k : nat) (doc_filter : option (list string)) :
  (0 < ntotal s)%nat ->
  (forall i c, chunks s !! i = Some c -> Chunk.embedding_id c = i) ->
  StronglySorted result_before (search embed s query top_k doc_filter)
  /\ Forall (fun r => exists v,
                 index s !! Chunk.embedding_id (res_chunk r) = Some v
                 /\ distance r = l2 (embed query) v)
       (search embed s query top_k doc_filter).
Proof.
  intros Hn Hpos. unfold search.
  destruct (ntotal s =? 0)%nat eqn:E; [apply Nat.eqb_eq in E; lia|].
  split.
  - eapply omap_sorted; [|apply index_search_sorted].
    intros [i x] [j y] r1 r2 Hlt H1 H2.
    apply search_step_Some in H1 as (Hc1 & Hd1 & _).
    apply search_step_Some in H2 as (Hc2 & Hd2 & _).
    unfold result_before. rewrite Hd1, Hd2, (Hpos _ _ Hc1), (Hpos _ _ Hc2).
    exact Hlt.
  - apply Forall_forall. intros r Hr.
    apply list_elem_of_omap in Hr as ([i x] & Hh & Hstep).
    pose proof (index_search_distance (index s) (embed query) top_k) as Hd.
    rewrite Forall_forall in Hd. destruct (Hd _ Hh) as (v & Hv & Hx).
    apply search_step_Some in Hstep as (Hc & Hdist & _).
    exists v. rewrite (Hpos _ _ Hc), Hdist. now split.
Qed.

Lemma search_sorted_witness :
  StronglySorted result_before (search Sample.toy Sample.store_AB Sample.paris 2 None)
  /\ Forall (fun r => exists v,
                 index Sample.store_AB !! Chunk.embedding_id (res_chunk r) = Some v
                 /\ distance r = l2 (Sample.toy Sample.paris) v)
       (search Sample.toy Sample.store_AB Sample.paris 2 None).
Proof.
  apply (search_sorted Sample.toy Sample.store_AB Sample.paris 2 None).
  - vm_compute. lia.
  - intros i c. vm_compute.
    destruct i as [|[|[|i]]]; intros H; inversion H; reflexivity.
Defined.

(** Filtering while walking the hits gives what filtering the unfiltered
    results gives. *)
Lemma search_step_filtered s d ds h :
  search_step s (Some (d :: ds)) h
  = match search_step s None h with
    | Some r =>
        if decide (Chunk.doc_id (res_chunk r) ∈ d :: ds) then Some r else None
    | None => None
    end.
Proof.
  destruct h as [idx dist]. unfold search_step.
  destruct (length (chunks s) <=? idx)%nat; [done|].
  destruct (chunks s !! idx) as [chunk|]; [|done].
  cbn [filtered_out res_chunk].
  destruct (decide (Chunk.doc_id chunk ∈ d :: ds)) as [Hd|Hd].
  - now rewrite bool_decide_eq_false_2 by (intros H; exact (H Hd)).
  - now rewrite bool_decide_eq_true_2 by exact Hd.
Qed.

Lemma search_step_filter s d ds (hits : list (nat * Z)) :
  omap (search_step s (Some (d :: ds))) hits
  = filter (fun r => Chunk.doc_id (res_chunk r) ∈ d :: ds)
      (omap (search_step s None) hits).
Proof.
  induction hits as [|h hits IH]; [done|].
  cbn [omap list_omap]. rewrite search_step_filtered.
  destruct (search_step s None h) as [r|]; [|exact IH].
  rewrite filter_cons.
  destruct (decide (Chunk.doc_id (res_chunk r) ∈ d :: ds)); [now f_equal | exact IH].
Qed.

(** The nearest chunk belongs to another document than the one asked for. *)
Lemma search_starved (embed : string -> vec) :
  search embed (Sample.store_BA embed) Sample.berlin 1 (Some ["A"]) = []
  /\ length (get_document_chunks (Sample.store_BA embed) "A") = 1%nat.
Proof.
  assert (Hi : index (Sample.store_BA embed)
               = [embed Sample.berlin; embed Sample.paris]) by reflexivity.
  assert (Hc : chunks (Sample.store_BA embed)
               = [Chunk.mk "B" "B" Sample.berlin 1 0 0;
                  Chunk.mk "A" "A" Sample.paris 1 1 1]) by reflexivity.
  split; [|unfold get_document_chunks; rewrite Hc; reflexivity].
  assert (Hh : index_search (index (Sample.store_BA embed))
                 (embed Sample.berlin) 1 = [(0%nat, 0)]).
  { rewrite Hi. unfold index_search. cbn [imap hit_sort foldr hit_insert compose].
    rewrite l2_self.
    pose proof (l2_nonneg (embed Sample.berlin) (embed Sample.paris)) as Hd.
    destruct (l2 (embed Sample.berlin) (embed Sample.paris)); [done | done | lia]. }
  unfold search. rewrite Hh. unfold ntotal. rewrite Hi.
  cbn [length Nat.eqb omap list_omap]. unfold search_step. rewrite Hc.
  reflexivity.
Qed.

(** C10. Doc filter applied after retrieval.  A search with a filter is the
    unfiltered search of the same [top_k] with the results outside the filter
    removed, so every result is of a document in the filter; and there is a
    store, reached by two ingests, a query and a filter for which fewer than
    [top_k] results come back although the filtered document has [top_k]
    chunks. *)
Theorem filter_after_retrieval (embed : string -> vec) :
  (forall s query top_k d ds,
      search embed s query top_k (Some (d :: ds))
      = filter (fun r => Chunk.doc_id (res_chunk r) ∈ d :: ds)
          (search embed s query top_k None))
  /\ (forall s query top_k d ds,
        Forall (fun r => Chunk.doc_id (res_chunk r) ∈ d :: ds)
          (search embed s query top_k (Some (d :: ds))))
  /\ (exists s query top_k doc_filter,
        (length (search embed s query top_k (Some doc_filter)) < top_k)%nat
        /\ (top_k <= length (filter (fun c => Chunk.doc_id c ∈ doc_filter)
                               (chunks s)))%nat).
Proof.
  assert (Hfilter : forall s query top_k d ds,
    search embed s query top_k (Some (d :: ds))
    = filter (fun r => Chunk.doc_id (res_chunk r) ∈ d :: ds)
        (search embed s query top_k None)).
  { intros s query top_k d ds. unfold search.
    destruct (ntotal s =? 0)%nat; [done|]. apply search_step_filter. }
  split; [exact Hfilter|split].
  - intros s query top_k d ds. rewrite Hfilter.
    apply Forall_forall. intros r Hr.
    now apply list_elem_of_filter in Hr as [? _].
  - exists (Sample.store_BA embed), Sample.berlin, 1%nat, ["A"].
    destruct (search_starved embed) as [-> _]. split; [simpl; lia|].
    vm_compute. lia.
Qed.

(** * Properties of the persistence layer *)

Section PersistenceFacts.

Variable bytes : Type.
Variable write_index : list vec -> bytes.
Variable read_index : bytes -> outcome (list vec).
Variable json_dump : list Chunk.t -> bytes.
Variable json_load : bytes -> outcome (list Chunk.t).
Variable pickle_dump : gmap string Meta.t -> bytes.
Variable pickle_load : bytes -> outcome (gmap string Meta.t).

Local Abbreviation load := (_load_from_disk bytes read_index json_load pickle_load).

Ltac run_load :=
  unfold _load_from_disk, load_body, try_except, mbind, M_bind, bind, mret,
    M_ret, ret, lift, set_index, set_chunks, set_document_metadata;
  simpl.

(** The handler of [_load_from_disk] catches whatever the body raises. *)
Lemma load_returns d s : (load d s).1 = Returned tt.
Proof.
  run_load.
  destruct (index_file bytes d) as [bi|]; [destruct (read_index bi)|]; simpl;
    (destruct (chunk_file bytes d) as [bc|]; [destruct (json_load bc)|]); simpl;
    (destruct (metadata_file bytes d) as [bm|]; [destruct (pickle_load bm)|]);
    reflexivity.
Qed.

(** A failed read resets all three attributes, also those already loaded. *)
Lemma load_unreadable d s :
  unreadable bytes read_index json_load pickle_load d ->
  load d s = (Returned tt, empty_store).
Proof.
  intros Hbad. run_load.
  destruct Hbad as [(b & e & Hf & Hr)|[(b & e & Hf & Hr)|(b & e & Hf & Hr)]];
    rewrite Hf; try rewrite Hr; simpl.
  - reflexivity.
  - destruct (index_file bytes d) as [bi|]; [destruct (read_index bi)|];
      simpl; rewrite ?Hr; reflexivity.
  - destruct (index_file bytes d) as [bi|]; [destruct (read_index bi)|]; simpl;
      (destruct (chunk_file bytes d) as [bc|]; [destruct (json_load bc)|]);
      simpl; rewrite ?Hr; reflexivity.
Qed.

Lemma load_missing d s :
  missing bytes d -> load d s = (Returned tt, s).
Proof.
  intros (Hi & Hc & Hm). run_load. rewrite Hi, Hc, Hm. simpl. now destruct s.
Qed.

(** Loading what was just saved, with serialisers that read back what they
    wrote. *)
Lemma load_saved s d s0 :
  (forall i, read_index (write_index i) = Returned i) ->
  (forall c, json_load (json_dump c) = Returned c) ->
  (forall m, pickle_load (pickle_dump m) = Returned m) ->
  load (_save_to_disk bytes write_index json_dump pickle_dump s d) s0
  = (Returned tt, s).
Proof.
  intros Hi Hc Hm. run_load. rewrite Hi. simpl. rewrite Hc. simpl.
  rewrite Hm. simpl. now destruct s.
Qed.

End PersistenceFacts.

(** C7. Graceful load degradation.  Construction of the store never ends in
    an exception, and when some existing artifact cannot be read or parsed,
    or the artifact set is absent, the store it builds is the empty triple. *)
Theorem load_degrades (bytes : Type)
    (read_index : bytes -> outcome (list vec))
    (json_load : bytes -> outcome (list Chunk.t))
    (pickle_load : bytes -> outcome (gmap string Meta.t))
    (d : disk bytes) :
  (init bytes read_index json_load pickle_load d).1 = Returned tt
  /\ (unreadable bytes read_index json_load pickle_load d \/ missing bytes d ->
      init bytes read_index json_load pickle_load d = (Returned tt, empty_store)).
Proof.
  unfold init. split; [apply load_returns|].
  intros [H|H]; [now apply load_unreadable | now apply load_missing].
Qed.

Lemma load_degrades_witness :
  init Sample.blob Sample.read_index Sample.json_load Sample.pickle_load
    Sample.corrupt_disk
  = (Returned tt, empty_store).
Proof.
  apply (load_degrades Sample.blob Sample.read_index Sample.json_load
           Sample.pickle_load Sample.corrupt_disk).
  left. right. left. exists Sample.Garbage, IOError. split; reflexivity.
Defined.

(** C8. Round-trip persistence.  With serialisers that read back what they
    wrote, saving a store and constructing a new one from the files gives an
    index of the same size with the same vectors, the same chunk list and
    the same registry. *)
Theorem save_load_roundtrip (bytes : Type)
    (write_index : list vec -> bytes) (read_index : bytes -> outcome (list vec))
    (json_dump : list Chunk.t -> bytes) (json_load : bytes -> outcome (list Chunk.t))
    (pickle_dump : gmap string Meta.t -> bytes)
    (pickle_load : bytes -> outcome (gmap string Meta.t))
    (s : store) (d : disk bytes) :
  (forall i, read_index (write_index i) = Returned i) ->
  (forall c, json_load (json_dump c) = Returned c) ->
  (forall m, pickle_load (pickle_dump m) = Returned m) ->
  let loaded :=
    (init bytes read_index json_load pickle_load
       (_save_to_disk bytes write_index json_dump pickle_dump s d)).2 in
  ntotal loaded = ntotal s
  /\ index loaded = index s
  /\ chunks loaded = chunks s
  /\ document_metadata loaded = document_metadata s.
Proof.
  intros Hi Hc Hm loaded. subst loaded. unfold init.
  rewrite (load_saved bytes write_index read_index json_dump json_load
             pickle_dump pickle_load s d empty_store Hi Hc Hm).
  simpl. repeat split.
Qed.

Lemma save_load_roundtrip_witness :
  let loaded :=
    (init Sample.blob Sample.read_index Sample.json_load Sample.pickle_load
       (_save_to_disk Sample.blob Sample.IndexBlob Sample.ChunkBlob
          Sample.MetaBlob Sample.store_AB Sample.corrupt_disk)).2 in
  ntotal loaded = ntotal Sample.store_AB
  /\ index loaded = index Sample.store_AB
  /\ chunks loaded = chunks Sample.store_AB
  /\ document_metadata loaded = document_metadata Sample.store_AB.
Proof.
  apply (save_load_roundtrip Sample.blob Sample.IndexBlob Sample.read_index
           Sample.ChunkBlob Sample.json_load Sample.MetaBlob Sample.pickle_load
           Sample.store_AB Sample.corrupt_disk);
    intros; reflexivity.
Defined.

(** * Further properties of the chunker *)

Section ChunkerCap.

Variable min_length : Z.

(** A property of chunks that holds of everything within 502 characters. *)
Variable Q : string -> Prop.
Hypothesis Q_short : forall c, Str.len c <= 502 -> Q c.

(** The buffer and the flushed chunks stay within the cap or are sentences
    over the cap, which [Q] is assumed to accept. *)
Lemma sentence_loop_cap sentences :
  forall cur acc,
    Forall (fun sent => 500 < Str.len sent -> Q sent) sentences ->
    Q cur ->
    Forall Q acc ->
    Q (sentence_loop min_length sentences cur acc).1
    /\ Forall Q (sentence_loop min_length sentences cur acc).2.
Proof.
  induction sentences as [|sent rest IH]; intros cur acc Hin Hcur Hacc; simpl.
  - now split.
  - inversion Hin as [|? ? Hsent Hrest]; subst.
    destruct (500 <? Str.len cur + Str.len sent) eqn:E.
    + apply IH; [exact Hrest | | ].
      * destruct (Z_le_gt_dec (Str.len sent) 502); [now apply Q_short|].
        apply Hsent. lia.
      * destruct (min_length <=? Str.len cur); [|exact Hacc].
        apply Forall_app. split; [exact Hacc|].
        constructor; [exact Hcur | constructor].
    + apply Z.ltb_ge in E. apply IH; [exact Hrest | | exact Hacc].
      apply Q_short. pose proof (len_nonneg sent).
      destruct cur as [|c0 cur']; cbn [Str.truthy].
      * change (EmptyString +:+ sent) with sent.
        change (Str.len EmptyString) with 0 in E. lia.
      * rewrite !len_append. change (Str.len ". ") with 2. lia.
Qed.

Lemma split_paragraph_cap para acc :
  Forall (fun sent => 500 < Str.len sent -> Q sent) (Str.split ". " para) ->
  Forall Q acc ->
  Forall Q (split_paragraph min_length para acc).
Proof.
  intros Hsents Hacc. unfold split_paragraph.
  destruct (500 <? Str.len para) eqn:E.
  - destruct (sentence_loop_cap (Str.split ". " para) EmptyString acc)
      as [Hcur Hout]; [exact Hsents | | exact Hacc |].
    { apply Q_short. change (Str.len EmptyString) with 0. lia. }
    destruct (sentence_loop _ _ _ _) as [cur out]; simpl in *.
    destruct (Str.truthy cur && (min_length <=? Str.len cur)); [|exact Hout].
    apply Forall_app. split; [exact Hout|]. constructor; [exact Hcur | constructor].
  - apply Forall_app. split; [exact Hacc|].
    constructor; [|constructor]. apply Q_short. apply Z.ltb_ge in E. lia.
Qed.

Lemma paragraph_loop_cap paragraphs :
  forall acc,
    Forall (fun para =>
              Forall (fun sent => 500 < Str.len sent -> Q sent)
                (Str.split ". " para)) paragraphs ->
    Forall Q acc ->
    Forall Q (paragraph_loop min_length paragraphs acc).
Proof.
  induction paragraphs as [|para rest IH]; intros acc Hps Hacc; simpl; [exact Hacc|].
  inversion Hps; subst. apply IH; [assumption|]. now apply split_paragraph_cap.
Qed.

End ChunkerCap.

(** When every paragraph fits in the cap, the paragraph loop appends the
    paragraphs as they are. *)
Lemma paragraph_loop_short min_length paragraphs :
  forall acc,
    Forall (fun para => Str.len para <= 500) paragraphs ->
    paragraph_loop min_length paragraphs acc = acc ++ paragraphs.
Proof.
  induction paragraphs as [|para rest IH]; intros acc Hps; simpl.
  - now rewrite app_nil_r.
  - inversion Hps as [|? ? Hp Hrest]; subst. rewrite IH by exact Hrest.
    unfold split_paragraph.
    replace (500 <? Str.len para) with false by (symmetry; apply Z.ltb_ge; lia).
    now rewrite <- app_assoc.
Qed.

(** X1. The cap of 500 is a soft one with a known slack: every chunk that
    [_split_text] emits has at most 502 characters, or is by itself one
    sentence of more than 500 characters of a stripped line of the text. *)
Theorem split_text_soft_cap (text : string) (min_length : Z) :
  Forall (within_soft_cap text) (_split_text text min_length).
Proof.
  unfold _split_text. apply paragraph_loop_cap; [now left | | constructor].
  apply List.Forall_forall. intros para Hpara.
  apply filter_In in Hpara as [Hpara _].
  apply in_map_iff in Hpara as (line & <- & Hline).
  apply List.Forall_forall. intros sent Hsent Hbig.
  right. split; [exact Hbig|]. now exists line.
Qed.

(** X2. A text whose stripped lines all fit in 500 characters is chunked line
    by line: the chunks are the stripped lines of at least [min_length]
    characters, in the order of the text. *)
Theorem split_text_short_lines (text : string) (min_length : Z) :
  Forall (fun line => Str.len (Str.strip line) <= 500)
    (Str.split Str.newline text) ->
  _split_text text min_length
  = List.filter (fun p => min_length <=? Str.len p)
      (List.map Str.strip (Str.split Str.newline text)).
Proof.
  intros Hshort. unfold _split_text. rewrite paragraph_loop_short; [reflexivity|].
  apply List.Forall_forall. intros para Hpara.
  apply filter_In in Hpara as [Hpara _].
  apply in_map_iff in Hpara as (line & <- & Hline).
  rewrite List.Forall_forall in Hshort. now apply Hshort.
Qed.

Lemma split_text_short_lines_witness :
  _split_text Sample.text_A default_min_length
  = List.filter (fun p => default_min_length <=? Str.len p)
      (List.map Str.strip (Str.split Str.newline Sample.text_A)).
Proof.
  apply (split_text_short_lines Sample.text_A default_min_length).
  vm_compute. repeat constructor; discriminate.
Defined.

(** * Further properties of the store *)

Section StoreMore.

Variable embed : string -> vec.

Lemma renumber_payload cs : payload <$> renumber cs = payload <$> cs.
Proof.
  apply list_eq. intros j. rewrite !list_lookup_fmap, renumber_lookup.
  now destruct (cs !! j).
Qed.

(** Renumbering does nothing to chunks that already sit at their ids. *)
Lemma renumber_fixed cs :
  (forall i c, cs !! i = Some c -> Chunk.embedding_id c = i) -> renumber cs = cs.
Proof.
  intros Hpos. apply list_eq. intros j. rewrite renumber_lookup.
  destruct (cs !! j) as [c|] eqn:E; [|done]. simpl.
  rewrite <- (Hpos j c E). now destruct c.
Qed.

Lemma filter_nil_Forall {A} (P : A -> Prop) `{!forall x, Decision (P x)} (l : list A) :
  filter P l = [] -> Forall (fun x => ~ P x) l.
Proof.
  intros Hnil. apply Forall_forall. intros x Hx HP.
  exact (filter_nil_not_elem_of P l x Hnil HP Hx).
Qed.

Lemma has_chunks s d :
  get_document_chunks s d ≠ [] <-> exists c, c ∈ chunks s /\ Chunk.doc_id c = d.
Proof.
  unfold get_document_chunks. split.
  - intros Hne.
    destruct (filter (fun chunk => Chunk.doc_id chunk = d) (chunks s)) as [|c l] eqn:E;
      [done|].
    assert (Hc : c ∈ filter (fun chunk => Chunk.doc_id chunk = d) (chunks s))
      by (rewrite E; apply list_elem_of_here).
    apply list_elem_of_filter in Hc as [Hd Hc]. now exists c.
  - intros (c & Hc & Hd) E.
    exact (filter_nil_not_elem_of _ _ c E Hd Hc).
Qed.

(** The accepting path of [delete_document]. *)
Lemma delete_document_ok doc_id s m keep_mask :
  document_metadata s !! doc_id = Some m ->
  get_document_chunks s doc_id ≠ [] ->
  mask_clear (replicate (ntotal s) true)
    (Chunk.embedding_id <$>
       filter (fun chunk => Chunk.doc_id chunk = doc_id) (chunks s))
  = Returned keep_mask ->
  delete_document doc_id s
  = (Returned true,
     Store (mask_select (index s) keep_mask)
       (renumber (filter (fun chunk => Chunk.doc_id chunk ≠ doc_id) (chunks s)))
       (delete doc_id (document_metadata s))).
Proof.
  intros Hm Hc Hk.
  destruct (delete_document_cases doc_id s) as [E|(mask & _ & _ & Hk' & E)].
  - exfalso. revert E.
    unfold delete_document, try_except, mbind, M_bind, bind, get. simpl.
    rewrite Hm.
    destruct (delete_indices (chunks s) doc_id) as [|i0 is0] eqn:Ei.
    { apply delete_indices_nil in Ei. contradiction. }
    unfold lift. rewrite Hk. simpl. discriminate.
  - rewrite Hk in Hk'. injection Hk' as <-. exact E.
Qed.

(** Under the invariant the accepting path is taken whenever the document
    is registered and has a chunk. *)
Lemma delete_document_in_step doc_id s m :
  in_step embed s ->
  document_metadata s !! doc_id = Some m ->
  get_document_chunks s doc_id ≠ [] ->
  delete_document doc_id s
  = (Returned true,
     Store ((fun c => embed (Chunk.text c)) <$>
              filter (fun chunk => Chunk.doc_id chunk ≠ doc_id) (chunks s))
       (renumber (filter (fun chunk => Chunk.doc_id chunk ≠ doc_id) (chunks s)))
       (delete doc_id (document_metadata s))).
Proof.
  intros Hs Hm Hc.
  rewrite (delete_document_ok doc_id s m _ Hm Hc (in_step_mask embed doc_id s Hs)).
  destruct Hs as [_ Hix]. now rewrite Hix at 1; rewrite mask_select_fmap.
Qed.

End StoreMore.

(** X3. [add_document] never lets an exception out, and it answers [True]
    exactly when the text yields at least one chunk and [page_count] is not
    zero. *)
Theorem add_document_result (embed : string -> vec) (text doc_id doc_name : string)
    (page_count : Z) (now : string) (s : store) :
  (add_document embed text doc_id doc_name page_count now s).1
  = Returned (bool_decide (_split_text text default_min_length ≠ []
                           /\ page_count ≠ 0)).
Proof.
  destruct (decide (_split_text text default_min_length = [])) as [E|E].
  { rewrite add_document_no_chunks by exact E. simpl.
    rewrite bool_decide_eq_false_2; [done|]. tauto. }
  destruct (decide (page_count = 0)) as [->|Hpc].
  { rewrite add_document_zero by exact E. simpl.
    rewrite bool_decide_eq_false_2; [done|]. tauto. }
  rewrite add_document_ok by assumption. simpl.
  now rewrite bool_decide_eq_true_2.
Qed.

(** X4. Whatever its outcome, [add_document] only appends: the vectors and
    the chunk records already in the store stay where they are, and no
    registry entry other than the one of [doc_id] changes. *)
Theorem add_document_frame (embed : string -> vec) (text doc_id doc_name : string)
    (page_count : Z) (now : string) (s : store) :
  let s' := (add_document embed text doc_id doc_name page_count now s).2 in
  index s `prefix_of` index s'
  /\ chunks s `prefix_of` chunks s'
  /\ forall d, d ≠ doc_id -> document_metadata s' !! d = document_metadata s !! d.
Proof.
  destruct (decide (_split_text text default_min_length = [])) as [E|E].
  { rewrite add_document_no_chunks by exact E. simpl. done. }
  destruct (decide (page_count = 0)) as [->|Hpc].
  { rewrite add_document_zero by exact E. simpl.
    split; [apply prefix_app_r; done | done]. }
  rewrite add_document_ok by assumption. simpl.
  split; [apply prefix_app_r; done|]. split; [apply prefix_app_r; done|].
  intros d Hd. now rewrite lookup_insert_ne.
Qed.

(** X5. The record of the [j]-th paragraph of an ingest with a page count
    other than zero: it is appended at position [len(chunks) + j] with that
    position as [chunk_id], page [(j mod page_count) + 1] (between 1 and
    [page_count] when that is positive), and an [embedding_id] that names
    the slot of the index where the paragraph's own vector was added,
    whatever the store looked like before. *)
Theorem add_document_records (embed : string -> vec) (text doc_id doc_name : string)
    (page_count : Z) (now : string) (s : store) (j : nat) (para : string) :
  page_count ≠ 0 ->
  _split_text text default_min_length !! j = Some para ->
  let s' := (add_document embed text doc_id doc_name page_count now s).2 in
  chunks s' !! (length (chunks s) + j)%nat
  = Some (Chunk.mk doc_id doc_name para (Z.of_nat j mod page_count + 1)
            (length (chunks s) + j) (ntotal s + j))
  /\ index s' !! (ntotal s + j)%nat = Some (embed para)
  /\ (0 < page_count -> 1 <= Z.of_nat j mod page_count + 1 <= page_count).
Proof.
  intros Hpc Hj.
  assert (E : _split_text text default_min_length ≠ [])
    by (intros E; rewrite E in Hj; discriminate).
  rewrite add_document_ok by assumption. simpl.
  split; [|split].
  - rewrite lookup_app_r by lia.
    replace (length (chunks s) + j - length (chunks s))%nat with j by lia.
    unfold ingested. rewrite list_lookup_imap, Hj. simpl.
    do 2 f_equal. lia.
  - unfold ntotal. rewrite lookup_app_r by lia.
    replace (length (index s) + j - length (index s))%nat with j by lia.
    unfold encode.
    change (List.map embed (_split_text text default_min_length))
      with (embed <$> _split_text text default_min_length).
    now rewrite list_lookup_fmap, Hj.
  - intros Hpos. pose proof (Z.mod_pos_bound (Z.of_nat j) page_count Hpos). lia.
Qed.

Lemma add_document_records_witness :
  let s' := (add_document Sample.toy Sample.text_A "C" "C" 2 "t2" Sample.store_AB).2 in
  chunks s' !! (length (chunks Sample.store_AB) + 1)%nat
  = Some (Chunk.mk "C" "C" Sample.eiffel (Z.of_nat 1 mod 2 + 1)
            (length (chunks Sample.store_AB) + 1) (ntotal Sample.store_AB + 1))
  /\ index s' !! (ntotal Sample.store_AB + 1)%nat = Some (Sample.toy Sample.eiffel)
  /\ (0 < 2 -> 1 <= Z.of_nat 1 mod 2 + 1 <= 2).
Proof.
  apply (add_document_records Sample.toy Sample.text_A "C" "C" 2 "t2"
           Sample.store_AB 1 Sample.eiffel).
  - lia.
  - vm_compute. reflexivity.
Defined.

(** X6. A successful delete keeps the surviving chunk records in their order
    and leaves every field of theirs but [embedding_id] as it was
    ([chunk_id] included, which is not renumbered); the ids are renumbered
    [0, 1, ...], and no registry entry but the deleted one changes. *)
Theorem delete_document_frame (s s' : store) (d : string) :
  delete_document d s = (Returned true, s') ->
  payload <$> chunks s'
  = payload <$> filter (fun chunk => Chunk.doc_id chunk ≠ d) (chunks s)
  /\ Chunk.embedding_id <$> chunks s' = seq 0 (length (chunks s'))
  /\ forall d', d' ≠ d -> document_metadata s' !! d' = document_metadata s !! d'.
Proof.
  intros Hdel.
  destruct (delete_document_cases d s) as [E|(mask & _ & _ & _ & E)];
    rewrite E in Hdel; [discriminate|].
  injection Hdel as <-. simpl. split; [|split].
  - apply renumber_payload.
  - rewrite renumber_embedding_id, renumber_length. reflexivity.
  - intros d' Hd'. now rewrite lookup_delete_ne.
Qed.

Lemma delete_document_frame_witness :
  payload <$> chunks (delete_document "A" Sample.store_AB).2
  = payload <$> filter (fun chunk => Chunk.doc_id chunk ≠ "A") (chunks Sample.store_AB)
  /\ Chunk.embedding_id <$> chunks (delete_document "A" Sample.store_AB).2
     = seq 0 (length (chunks (delete_document "A" Sample.store_AB).2))
  /\ forall d', d' ≠ "A" ->
       document_metadata (delete_document "A" Sample.store_AB).2 !! d'
       = document_metadata Sample.store_AB !! d'.
Proof.
  apply (delete_document_frame Sample.store_AB _ "A").
  vm_compute. reflexivity.
Defined.

(** X7. [delete_document] never lets an exception out; on a store that
    satisfies the dense id invariant it answers [True] exactly when the
    document is registered and has at least one chunk. *)
Theorem delete_document_result (embed : string -> vec) (s : store) (d : string) :
  in_step embed s ->
  (exists b, (delete_document d s).1 = Returned b)
  /\ ((delete_document d s).1 = Returned true
      <-> is_Some (document_metadata s !! d) /\ get_document_chunks s d ≠ []).
Proof.
  intros Hs. split.
  - destruct (delete_document_cases d s) as [->|(mask & _ & _ & _ & ->)];
      [now exists false | now exists true].
  - split.
    + intros Htrue.
      destruct (delete_document_cases d s) as [E|(mask & Hm & Hi & _ & _)].
      * rewrite E in Htrue. discriminate.
      * split; [exact Hm|]. intros Hnil. apply Hi.
        now apply delete_indices_nil.
    + intros [[m Hm] Hc].
      now rewrite (delete_document_in_step embed d s m Hs Hm Hc).
Qed.

Lemma delete_document_result_witness :
  (exists b, (delete_document "A" Sample.store_AB).1 = Returned b)
  /\ ((delete_document "A" Sample.store_AB).1 = Returned true
      <-> is_Some (document_metadata Sample.store_AB !! "A")
          /\ get_document_chunks Sample.store_AB "A" ≠ []).
Proof.
  apply (delete_document_result Sample.toy Sample.store_AB "A").
  split; vm_compute; reflexivity.
Defined.

(** X8. Ingest then delete is a round trip: on a store that satisfies the
    dense id invariant and knows nothing of [doc_id], ingesting a document
    and then deleting it gives back the store as it was, index, chunk
    records and registry. *)
Theorem ingest_then_delete (embed : string -> vec) (s : store)
    (text doc_id doc_name : string) (page_count : Z) (now : string) :
  in_step embed s ->
  document_metadata s !! doc_id = None ->
  get_document_chunks s doc_id = [] ->
  _split_text text default_min_length ≠ [] ->
  page_count ≠ 0 ->
  delete_document doc_id
    (add_document embed text doc_id doc_name page_count now s).2
  = (Returned true, s).
Proof.
  intros Hs Hmd Hnone Hne Hpc.
  pose proof (in_step_add embed text doc_id doc_name page_count now s Hpc Hs) as Hs1.
  rewrite add_document_ok in * by assumption. cbn [snd] in *.
  set (new := ingested doc_id doc_name page_count (length (chunks s))
                (ntotal s + length (_split_text text default_min_length))
                (length (_split_text text default_min_length)) 0
                (_split_text text default_min_length)) in *.
  assert (Hnew : Forall (fun c => Chunk.doc_id c = doc_id) new)
    by apply ingested_doc_id.
  assert (Hold : Forall (fun c => ~ Chunk.doc_id c = doc_id) (chunks s))
    by exact (filter_nil_Forall (fun c => Chunk.doc_id c = doc_id) (chunks s) Hnone).
  assert (Hkeep : filter (fun chunk => Chunk.doc_id chunk ≠ doc_id) (chunks s ++ new)
                  = chunks s).
  { rewrite filter_app, (filter_all _ (chunks s)) by exact Hold.
    rewrite filter_none, app_nil_r; [reflexivity|].
    eapply Forall_impl; [exact Hnew|]. intros c Hc Hn. exact (Hn Hc). }
  erewrite delete_document_in_step; [|exact Hs1| |].
  - cbn [index chunks document_metadata]. rewrite Hkeep.
    rewrite delete_insert_eq, delete_id by exact Hmd.
    rewrite renumber_fixed by (intros i c; now apply in_step_position with (embed := embed)).
    destruct Hs as [_ Hix]. rewrite <- Hix. now destruct s.
  - cbn [document_metadata]. apply lookup_insert_eq.
  - apply has_chunks. cbn [chunks].
    destruct new as [|c0 new'] eqn:En.
    + apply (f_equal length) in En. subst new. rewrite ingested_length in En.
      destruct (_split_text text default_min_length); [done|discriminate].
    + exists c0. split; [apply elem_of_app; right; apply list_elem_of_here|].
      now inversion Hnew.
Qed.

Lemma ingest_then_delete_witness :
  delete_document "C"
    (add_document Sample.toy Sample.text_A "C" "C" 2 "t2" Sample.store_AB).2
  = (Returned true, Sample.store_AB).
Proof.
  apply (ingest_then_delete Sample.toy Sample.store_AB Sample.text_A "C" "C" 2 "t2").
  - split; vm_compute; reflexivity.
  - vm_compute. reflexivity.
  - vm_compute. reflexivity.
  - vm_compute. discriminate.
  - lia.
Defined.

(** X9. Deleting twice: after [delete_document d] has answered [True], a
    second [delete_document d] answers [False] and changes nothing. *)
Theorem delete_twice (s s' : store) (d : string) :
  delete_document d s = (Returned true, s') ->
  delete_document d s' = (Returned false, s').
Proof.
  intros Hdel.
  destruct (delete_document_cases d s) as [E|(mask & _ & _ & _ & E)];
    rewrite E in Hdel; [discriminate|].
  injection Hdel as <-.
  destruct (delete_document_cases d
              (Store (mask_select (index s) mask)
                 (renumber (filter (fun chunk => Chunk.doc_id chunk ≠ d) (chunks s)))
                 (delete d (document_metadata s))))
    as [E'|(mask' & [m Hm] & _)]; [exact E'|].
  simpl in Hm. rewrite lookup_delete_eq in Hm. discriminate.
Qed.

Lemma delete_twice_witness :
  delete_document "A" (delete_document "A" Sample.store_AB).2
  = (Returned false, (delete_document "A" Sample.store_AB).2).
Proof.
  apply (delete_twice Sample.store_AB _ "A"). vm_compute. reflexivity.
Defined.

Section Registry.

Variable embed : string -> vec.

Lemma renumber_has_doc cs d :
  (exists c, c ∈ renumber cs /\ Chunk.doc_id c = d)
  <-> (exists c, c ∈ cs /\ Chunk.doc_id c = d).
Proof.
  split.
  - intros (c & Hc & Hd). apply list_elem_of_lookup in Hc as [i Hi].
    rewrite renumber_lookup in Hi.
    destruct (cs !! i) as [c0|] eqn:E; [|discriminate].
    injection Hi as <-. exists c0. split; [eapply list_elem_of_lookup_2, E | exact Hd].
  - intros (c & Hc & Hd). apply list_elem_of_lookup in Hc as [i Hi].
    eexists. split.
    + eapply list_elem_of_lookup_2. rewrite renumber_lookup, Hi. reflexivity.
    + exact Hd.
Qed.

Lemma registry_matches_add text doc_id doc_name page_count now s :
  registry_matches s ->
  registry_matches (add_document embed text doc_id doc_name page_count now s).2.
Proof.
  intros Hs.
  destruct (decide (_split_text text default_min_length = [])) as [E|E].
  { now rewrite add_document_no_chunks. }
  destruct (decide (page_count = 0)) as [->|Hpc].
  { rewrite add_document_zero by exact E. exact Hs. }
  rewrite add_document_ok by assumption. cbn [snd].
  intros d. rewrite has_chunks. cbn [chunks document_metadata].
  specialize (Hs d). rewrite has_chunks in Hs.
  pose proof (ingested_doc_id doc_id doc_name page_count (length (chunks s))
                (ntotal s + length (_split_text text default_min_length))
                (length (_split_text text default_min_length)) 0
                (_split_text text default_min_length)) as Hnew.
  rewrite Forall_forall in Hnew.
  destruct (decide (d = doc_id)) as [->|Hd].
  - rewrite lookup_insert_eq. split; [intros _|by eexists].
    destruct (ingested doc_id doc_name page_count (length (chunks s))
                (ntotal s + length (_split_text text default_min_length))
                (length (_split_text text default_min_length)) 0
                (_split_text text default_min_length)) as [|c0 new'] eqn:En.
    + apply (f_equal length) in En. rewrite ingested_length in En.
      destruct (_split_text text default_min_length); [done|discriminate].
    + exists c0. split; [apply elem_of_app; right; apply list_elem_of_here|].
      apply Hnew, list_elem_of_here.
  - rewrite lookup_insert_ne by done. rewrite Hs. split.
    + intros (c & Hc & Hcd). exists c. split; [apply elem_of_app; now left | exact Hcd].
    + intros (c & Hc & Hcd). apply elem_of_app in Hc as [Hc|Hc]; [now exists c|].
      apply Hnew in Hc. congruence.
Qed.

Lemma registry_matches_delete doc_id s :
  registry_matches s -> registry_matches (delete_document doc_id s).2.
Proof.
  intros Hs.
  destruct (delete_document_cases doc_id s) as [->|(mask & _ & _ & _ & ->)];
    [exact Hs|].
  cbn [snd]. intros d. rewrite has_chunks. cbn [chunks document_metadata].
  rewrite renumber_has_doc.
  specialize (Hs d). rewrite has_chunks in Hs.
  destruct (decide (d = doc_id)) as [->|Hd].
  - rewrite lookup_delete_eq. split; [intros [? ?]; discriminate|].
    intros (c & Hc & Hcd). apply list_elem_of_filter in Hc as [Hne _]. contradiction.
  - rewrite lookup_delete_ne by done. rewrite Hs. split.
    + intros (c & Hc & Hcd). exists c. split; [|exact Hcd].
      apply list_elem_of_filter. split; [congruence | exact Hc].
    + intros (c & Hc & Hcd). apply list_elem_of_filter in Hc as [_ Hc]. now exists c.
Qed.

Lemma registry_matches_run ops :
  forall s, registry_matches s -> registry_matches (run embed ops s).
Proof.
  induction ops as [|o ops IH]; intros s Hs; [exact Hs|].
  simpl. apply IH.
  destruct o as [text doc_id doc_name page_count now | doc_id]; simpl.
  - now apply registry_matches_add.
  - now apply registry_matches_delete.
Qed.

End Registry.

(** X10. After any sequence of ingests and deletes from the empty store,
    failed ones included, the registry names exactly the documents that have
    at least one chunk record. *)
Theorem registry_matches_chunks (embed : string -> vec) (ops : list op) :
  registry_matches (run embed ops empty_store).
Proof.
  apply registry_matches_run. intros d. unfold get_document_chunks. simpl.
  rewrite lookup_empty. split; [intros [? ?]; discriminate | done].
Qed.

(** * Further properties of the search *)

Lemma search_step_chunk s doc_filter h r :
  search_step s doc_filter h = Some r ->
  res_chunk r ∈ chunks s /\ score r = 1 - distance r.
Proof.
  destruct h as [idx dist]. intros H.
  apply search_step_Some in H as (Hc & -> & -> & _).
  split; [eapply list_elem_of_lookup_2, Hc | reflexivity].
Qed.

Lemma omap_length {A B} (f : A -> option B) (l : list A) :
  (length (omap f l) <= length l)%nat.
Proof.
  induction l as [|x l IH]; [simpl; lia|].
  cbn [omap list_omap]. destruct (f x); cbn [length]; fold (omap f l); lia.
Qed.

Lemma hit_insert_elem x a l : x ∈ hit_insert a l <-> x = a \/ x ∈ l.
Proof.
  induction l as [|b l IH]; simpl.
  - rewrite list_elem_of_singleton. rewrite elem_of_nil. tauto.
  - destruct (hit_le a b).
    + now rewrite elem_of_cons.
    + rewrite !elem_of_cons, IH. tauto.
Qed.

Lemma hit_sort_elem x l : x ∈ hit_sort l <-> x ∈ l.
Proof.
  induction l as [|a l IH]; simpl; [done|].
  now rewrite hit_insert_elem, elem_of_cons, IH.
Qed.

(** X11. Every search result carries a chunk record of the store, so a store
    without chunk records answers every search with the empty list; its
    score is one minus its distance; a search returns at most [top_k]
    results; and an empty filter list filters nothing. *)
Theorem search_sound (embed : string -> vec) (s : store) (query : string)
    (top_k : nat) (doc_filter : option (list string)) :
  Forall (fun r => res_chunk r ∈ chunks s /\ score r = 1 - distance r)
    (search embed s query top_k doc_filter)
  /\ (length (search embed s query top_k doc_filter) <= top_k)%nat
  /\ search embed s query top_k (Some []) = search embed s query top_k None.
Proof.
  unfold search. destruct (ntotal s =? 0)%nat; [repeat split; [constructor | simpl; lia]|].
  split; [|split].
  - apply Forall_forall. intros r Hr.
    apply list_elem_of_omap in Hr as (h & _ & Hstep).
    eapply search_step_chunk, Hstep.
  - etransitivity; [apply omap_length|].
    unfold index_search. rewrite length_take. lia.
  - reflexivity.
Qed.

Lemma self_retrieval_in_step (embed : string -> vec) (s : store) (c : Chunk.t)
    (top_k : nat) :
  in_step embed s ->
  c ∈ chunks s ->
  (0 < top_k)%nat ->
  exists r rest,
    search embed s (Chunk.text c) top_k None = r :: rest
    /\ distance r = 0
    /\ (Chunk.embedding_id (res_chunk r) <= Chunk.embedding_id c)%nat.
Proof.
  intros Hs Hc Hk. pose proof (in_step_length embed s Hs) as Hlen.
  apply list_elem_of_lookup in Hc as [i Hi].
  pose proof (in_step_position embed s i c Hs Hi) as Hid.
  assert (Hlt : (i < ntotal s)%nat) by (rewrite <- Hlen; eapply lookup_lt_Some, Hi).
  assert (Hv : index s !! i = Some (embed (Chunk.text c))).
  { destruct Hs as [_ Hix]. now rewrite Hix, list_lookup_fmap, Hi. }
  set (q := embed (Chunk.text c)).
  set (hits := imap (fun i v => (i, l2 q v)) (index s)).
  assert (Hin : (i, 0) ∈ hit_sort hits).
  { apply hit_sort_elem. unfold hits. apply elem_of_lookup_imap.
    exists i, q. split; [now rewrite l2_self | exact Hv]. }
  assert (Hsorted : StronglySorted hit_lt (hit_sort hits)).
  { apply hit_sort_sorted. unfold hits. rewrite scored_labels. apply NoDup_seq. }
  destruct (hit_sort hits) as [|[j dj] more] eqn:Eh; [inversion Hin|].
  assert (Hj : (j, dj) ∈ hits) by (apply hit_sort_elem; rewrite Eh; apply list_elem_of_here).
  unfold hits in Hj. apply elem_of_lookup_imap in Hj as (j' & v & [= <- ->] & Hjv).
  pose proof (l2_nonneg q v) as Hnn.
  assert (Hhead : l2 q v = 0 /\ (j <= i)%nat).
  { apply elem_of_cons in Hin as [[= <- Hz]|Hin]; [lia|].
    apply StronglySorted_inv in Hsorted as [_ Hall].
    rewrite Forall_forall in Hall. specialize (Hall _ Hin).
    unfold hit_lt in Hall. simpl in Hall. lia. }
  destruct Hhead as [Hz Hji].
  assert (Hjc : (j < length (chunks s))%nat) by lia.
  destruct (lookup_lt_is_Some_2 (chunks s) j Hjc) as [cj Hcj].
  destruct top_k as [|k]; [lia|].
  exists (Result cj (1 - 0) 0),
         (omap (search_step s None) (take k more)).
  split; [|split].
  - unfold search. replace (ntotal s =? 0)%nat with false
      by (symmetry; apply Nat.eqb_neq; lia).
    unfold index_search. fold q. fold hits. rewrite Eh.
    cbn [take omap list_omap].
    unfold search_step at 1. replace (length (chunks s) <=? j)%nat with false
      by (symmetry; apply Nat.leb_gt; lia).
    rewrite Hcj, Hz. reflexivity.
  - reflexivity.
  - simpl. rewrite (in_step_position embed s j cj Hs Hcj), Hid. exact Hji.
Qed.

(** X12. Self-retrieval: on a store that satisfies the dense id invariant,
    searching without filter for the text of a stored chunk, with any
    [top_k] above zero, returns as first result one at distance 0 whose id is
    not above that chunk's (it is the chunk itself unless an earlier one has
    a vector at distance 0 too). *)
Theorem search_self_retrieval (embed : string -> vec) (s : store) (c : Chunk.t)
    (top_k : nat) :
  in_step embed s ->
  c ∈ chunks s ->
  (0 < top_k)%nat ->
  exists r rest,
    search embed s (Chunk.text c) top_k None = r :: rest
    /\ distance r = 0
    /\ (Chunk.embedding_id (res_chunk r) <= Chunk.embedding_id c)%nat.
Proof. apply self_retrieval_in_step. Qed.

Lemma search_self_retrieval_witness :
  exists r rest,
    search Sample.toy Sample.store_AB
      (Chunk.text (Chunk.mk "B" "B" Sample.berlin 1 2 2)) 5 None = r :: rest
    /\ distance r = 0
    /\ (Chunk.embedding_id (res_chunk r)
        <= Chunk.embedding_id (Chunk.mk "B" "B" Sample.berlin 1 2 2))%nat.
Proof.
  apply (search_self_retrieval Sample.toy Sample.store_AB
           (Chunk.mk "B" "B" Sample.berlin 1 2 2) 5).
  - split; vm_compute; reflexivity.
  - vm_compute. do 2 apply list_elem_of_further. apply list_elem_of_here.
  - lia.
Defined.

Lemma hit_insert_length a l : length (hit_insert a l) = S (length l).
Proof.
  induction l as [|b l IH]; simpl; [done|].
  destruct (hit_le a b); simpl; [done | now rewrite IH].
Qed.

Lemma hit_sort_length l : length (hit_sort l) = length l.
Proof.
  induction l as [|a l IH]; simpl; [done|]. now rewrite hit_insert_length, IH.
Qed.

Lemma index_search_length idx q k :
  length (index_search idx q k) = Nat.min k (length idx).
Proof.
  unfold index_search. now rewrite length_take, hit_sort_length, length_imap.
Qed.

Lemma omap_all_Some {A B} (f : A -> option B) (l : list A) :
  Forall (fun x => is_Some (f x)) l -> length (omap f l) = length l.
Proof.
  induction 1 as [|x l [y Hy] _ IH]; [done|].
  cbn [omap list_omap]. rewrite Hy. cbn [length]. fold (omap f l). now rewrite IH.
Qed.

Lemma search_length_in_step (embed : string -> vec) (s : store) (query : string)
    (top_k : nat) :
  in_step embed s ->
  length (search embed s query top_k None) = Nat.min top_k (ntotal s).
Proof.
  intros Hs. pose proof (in_step_length embed s Hs) as Hlen. unfold search.
  destruct (ntotal s =? 0)%nat eqn:E.
  { apply Nat.eqb_eq in E. rewrite E. simpl. lia. }
  rewrite omap_all_Some; [apply index_search_length|].
  eapply Forall_impl; [apply index_search_distance|].
  intros [j dj] (v & Hv & _). simpl in Hv. apply lookup_lt_Some in Hv.
  unfold search_step. replace (length (chunks s) <=? j)%nat with false
    by (symmetry; apply Nat.leb_gt; unfold ntotal in Hlen; lia).
  destruct (lookup_lt_is_Some_2 (chunks s) j) as [cj ->];
    [unfold ntotal in Hlen; lia|].
  simpl. by eexists.
Qed.



(** * Further properties of the persistence layer *)

(** X13. The loader takes each artifact on its own and does not compare
    them: when the index file reads back at least one vector, the chunk file
    is absent and the metadata file is absent or readable, the store is
    built without error, with those vectors and no chunk record.  That store
    breaks the dense id invariant and answers every search with the empty
    list. *)
Theorem load_partial_set (embed : string -> vec) (bytes : Type)
    (read_index : bytes -> outcome (list vec))
    (json_load : bytes -> outcome (list Chunk.t))
    (pickle_load : bytes -> outcome (gmap string Meta.t))
    (d : disk bytes) (b : bytes) (v : vec) (vs : list vec) :
  index_file bytes d = Some b ->
  read_index b = Returned (v :: vs) ->
  chunk_file bytes d = None ->
  (metadata_file bytes d = None
   \/ exists b' m, metadata_file bytes d = Some b' /\ pickle_load b' = Returned m) ->
  let r := init bytes read_index json_load pickle_load d in
  r.1 = Returned tt
  /\ index r.2 = v :: vs
  /\ chunks r.2 = []
  /\ ~ dense_ids embed r.2
  /\ forall query top_k doc_filter, search embed r.2 query top_k doc_filter = [].
Proof.
  intros Hi Hr Hc Hm r.
  assert (Hstore : exists m, r = (Returned tt, Store (v :: vs) [] m)).
  { subst r. unfold init, _load_from_disk, load_body, try_except, mbind, M_bind,
      bind, mret, M_ret, ret, lift, set_index, set_chunks, set_document_metadata.
    rewrite Hi, Hr, Hc. simpl.
    destruct Hm as [->|(b' & m & -> & ->)]; simpl; eexists; reflexivity. }
  destruct Hstore as [m ->]. simpl. repeat split.
  - intros (_ & Hids & _). specialize (Hids 0%nat). apply proj2 in Hids.
    assert (H : 0%nat ∈ @nil nat); [|inversion H].
    apply Hids. unfold ntotal. simpl. lia.
  - intros query top_k doc_filter. unfold search.
    destruct (ntotal _ =? 0)%nat; [done|].
    apply omap_all_None. intros [idx dist]. reflexivity.
Qed.

Lemma load_partial_set_witness :
  let r := init Sample.blob Sample.read_index Sample.json_load Sample.pickle_load
             (Disk Sample.blob (Some (Sample.IndexBlob [[1]; [2]])) None None) in
  r.1 = Returned tt
  /\ index r.2 = [[1]; [2]]
  /\ chunks r.2 = []
  /\ ~ dense_ids Sample.toy r.2
  /\ forall query top_k doc_filter, search Sample.toy r.2 query top_k doc_filter = [].
Proof.
  apply (load_partial_set Sample.toy Sample.blob Sample.read_index Sample.json_load
           Sample.pickle_load
           (Disk Sample.blob (Some (Sample.IndexBlob [[1]; [2]])) None None)
           (Sample.IndexBlob [[1]; [2]]) [1] [[2]]).
  - reflexivity.
  - reflexivity.
  - reflexivity.
  - left. reflexivity.
Defined.

(** * Blank texts *)

Lemma blank_append a b : blank (a +:+ b) = blank a && blank b.
Proof.
  induction a as [|c a IH]; [reflexivity|].
  change (String c a +:+ b) with (String c (a +:+ b)). simpl.
  rewrite IH. now rewrite andb_assoc.
Qed.

Lemma lstrip_blank s : blank s = true -> Str.lstrip s = EmptyString.
Proof.
  induction s as [|c s IH]; simpl; [done|].
  intros H. apply andb_true_iff in H as [-> H]. now apply IH.
Qed.

Lemma blank_lstrip s : blank (Str.lstrip s) = true -> blank s = true.
Proof.
  induction s as [|c s IH]; simpl; [done|].
  destruct (Str.isspace c) eqn:E; simpl.
  - exact IH.
  - rewrite E. simpl. done.
Qed.

Lemma rstrip_empty s : Str.rstrip s = EmptyString -> blank s = true.
Proof.
  induction s as [|c s IH]; simpl; [done|].
  destruct (Str.rstrip s) as [|c' r]; [|discriminate].
  destruct (Str.isspace c); [|discriminate]. intros _. simpl. now apply IH.
Qed.

Lemma strip_empty s : Str.strip s = EmptyString <-> blank s = true.
Proof.
  unfold Str.strip. split.
  - intros H. now apply blank_lstrip, rstrip_empty.
  - intros H. now rewrite lstrip_blank.
Qed.

(** The pieces of a blank string are blank. *)
Lemma split_scan_blank sep (s : string) :
  forall skip cur x,
    blank s = true -> blank cur = true ->
    In x (Str.split_scan sep skip cur s) -> blank x = true.
Proof.
  induction s as [|c rest IH]; intros skip cur x Hs Hcur Hx;
    cbn [Str.split_scan] in Hx.
  - destruct Hx as [<-|[]]. exact Hcur.
  - simpl in Hs. apply andb_true_iff in Hs as [Hc Hrest].
    destruct skip as [|k].
    + destruct (String.prefix sep (String c rest)).
      * destruct Hx as [<-|Hx]; [exact Hcur|]. now apply IH in Hx.
      * apply IH in Hx; [exact Hx | exact Hrest |].
        rewrite blank_append, Hcur. simpl. now rewrite Hc.
    + now apply IH in Hx.
Qed.

Lemma strip_empty_no_chunks (text : string) (min_length : Z) :
  0 < min_length ->
  Str.strip text = EmptyString ->
  _split_text text min_length = [].
Proof.
  intros Hmin Hblank. apply strip_empty in Hblank.
  unfold _split_text.
  assert (E : paragraphs_of text min_length = []); [|now rewrite E].
  unfold paragraphs_of.
  destruct (List.filter _ _) as [|p ps] eqn:Ef; [reflexivity|]. exfalso.
  assert (Hp : In p (List.filter (fun p => min_length <=? Str.len p)
                       (List.map Str.strip (Str.split Str.newline text))))
    by (rewrite Ef; now left).
  apply filter_In in Hp as [Hp Hlen].
  apply in_map_iff in Hp as (line & <- & Hline).
  assert (Hb : blank line = true).
  { apply (split_scan_blank Str.newline text 0 EmptyString line Hblank);
      [reflexivity | exact Hline]. }
  apply strip_empty in Hb. rewrite Hb in Hlen.
  apply Z.leb_le in Hlen. change (Str.len EmptyString) with 0 in Hlen. lia.
Qed.

(** X14. A text that is empty once stripped yields no chunk, for any
    positive [min_length]: what [upload_doc] tests with [text.strip()] the
    chunker would refuse as well. *)
Theorem blank_text_no_chunks (text : string) (min_length : Z) :
  0 < min_length ->
  Str.strip text = EmptyString ->
  _split_text text min_length = [].
Proof. apply strip_empty_no_chunks. Qed.

Lemma blank_text_no_chunks_witness :
  _split_text (" " +:+ Str.newline +:+ "  ") default_min_length = [].
Proof.
  apply (blank_text_no_chunks (" " +:+ Str.newline +:+ "  ") default_min_length).
  - unfold default_min_length. lia.
  - vm_compute. reflexivity.
Defined.

(** * Properties of the request handlers *)

Section HandlerFacts.

Variable embed : string -> vec.

Lemma truthy_strip text :
  _split_text text default_min_length ≠ [] -> Str.truthy (Str.strip text) = true.
Proof.
  intros Hne. destruct (Str.strip text) eqn:E; [|reflexivity].
  exfalso. apply Hne. apply strip_empty_no_chunks; [unfold default_min_length; lia | exact E].
Qed.

(** [upload_doc] case by case. *)
Lemma upload_doc_failed filename e now s :
  upload_doc embed filename (Raised e) now s = (Returned (UploadFailed e), s).
Proof. reflexivity. Qed.

Lemma upload_doc_blank filename text now s :
  Str.truthy (Str.strip text) = false ->
  upload_doc embed filename (Returned text) now s = (Returned NoTextExtracted, s).
Proof.
  intros H. unfold upload_doc, try_except, mbind, M_bind, bind, lift.
  now rewrite H.
Qed.

Lemma upload_doc_no_chunks filename text now s :
  Str.truthy (Str.strip text) = true ->
  _split_text text default_min_length = [] ->
  upload_doc embed filename (Returned text) now s = (Returned NoValidContent, s).
Proof.
  intros H E. unfold upload_doc, try_except, mbind, M_bind, bind, lift.
  rewrite H. cbn [negb]. now rewrite add_document_no_chunks.
Qed.

Lemma upload_doc_complete filename text now s :
  _split_text text default_min_length ≠ [] ->
  upload_doc embed filename (Returned text) now s
  = (Returned UploadComplete,
     (add_document embed text filename filename 1 now s).2).
Proof.
  intros E. unfold upload_doc, try_except, mbind, M_bind, bind, lift.
  rewrite (truthy_strip text E). cbn [negb].
  now rewrite add_document_ok by (assumption || lia).
Qed.

Lemma in_step_upload filename extracted now s :
  in_step embed s -> in_step embed (upload_doc embed filename extracted now s).2.
Proof.
  intros Hs. destruct extracted as [text|e]; [|exact Hs].
  destruct (decide (_split_text text default_min_length = [])) as [E|E].
  - destruct (Str.truthy (Str.strip text)) eqn:Ht.
    + now rewrite upload_doc_no_chunks.
    + now rewrite upload_doc_blank.
  - rewrite upload_doc_complete by exact E. now apply in_step_add.
Qed.

Lemma in_step_run_uploads uploads :
  forall s, in_step embed s -> in_step embed (run_uploads embed uploads s).
Proof.
  induction uploads as [|u uploads IH]; intros s Hs; [exact Hs|].
  simpl. apply IH. now apply in_step_upload.
Qed.

End HandlerFacts.

(** X16. [upload_doc] always returns a dict; it reports completion exactly
    when text was extracted and that text yields at least one chunk, and
    with any other reply the store is as it was before the request. *)
Theorem upload_doc_outcome (embed : string -> vec) (filename : string)
    (extracted : outcome string) (now : string) (s : store) :
  exists r,
    (upload_doc embed filename extracted now s).1 = Returned r
    /\ (r = UploadComplete
        <-> exists text, extracted = Returned text
                         /\ _split_text text default_min_length ≠ [])
    /\ (r ≠ UploadComplete -> (upload_doc embed filename extracted now s).2 = s).
Proof.
  destruct extracted as [text|e].
  - destruct (decide (_split_text text default_min_length = [])) as [E|E].
    + destruct (Str.truthy (Str.strip text)) eqn:Ht.
      * rewrite upload_doc_no_chunks by assumption. exists NoValidContent.
        split; [done|]. split; [|done]. split; [done|].
        intros (t & [= <-] & Hne). contradiction.
      * rewrite upload_doc_blank by assumption. exists NoTextExtracted.
        split; [done|]. split; [|done]. split; [done|].
        intros (t & [= <-] & Hne). contradiction.
    + rewrite upload_doc_complete by exact E. exists UploadComplete.
      split; [done|]. split; [|done]. split; [|done]. intros _. now exists text.
  - rewrite upload_doc_failed. exists (UploadFailed e).
    split; [done|]. split; [|done]. split; [done|]. intros (t & Ht & _). discriminate.
Qed.

(** X17. Through the upload handler the dense id invariant cannot be
    broken: it holds after any sequence of uploads from the empty store,
    whatever was extracted from the files ([page_count] is always 1 there). *)
Theorem uploads_keep_dense_ids (embed : string -> vec)
    (uploads : list (string * outcome string * string)) :
  dense_ids embed (run_uploads embed uploads empty_store).
Proof.
  apply in_step_dense, in_step_run_uploads, in_step_empty.
Qed.

(** * Properties of the answer layer *)

Lemma relevant_docs_cite doc_nums document_answers :
  Forall (fun r => exists a, a ∈ document_answers /\ r = ref_of a)
    (relevant_docs doc_nums document_answers).
Proof.
  apply Forall_forall. intros r Hr. unfold relevant_docs in Hr.
  apply list_elem_of_omap in Hr as (n & _ & Hn).
  destruct ((1 <=? n) && (n <=? length document_answers))%nat; [|discriminate].
  destruct (document_answers !! (n - 1)%nat) as [doc|] eqn:E; [|discriminate].
  injection Hn as <-. exists doc. split; [eapply list_elem_of_lookup_2, E | reflexivity].
Qed.

Lemma theme_of_block_cites block document_answers t :
  theme_of_block block document_answers = Made t -> cites_only document_answers t.
Proof.
  unfold theme_of_block.
  destruct (length (Str.split Str.newline block) <? 3)%nat; [discriminate|].
  destruct (Str.split Str.newline block) as [|l0 [|l1 ls]]; try discriminate.
  destruct (doc_numbers _) as [doc_nums|]; [|discriminate].
  intros [= <-]. apply relevant_docs_cite.
Qed.

Lemma theme_loop_cites blocks document_answers :
  forall themes,
    Forall (cites_only document_answers) themes ->
    Forall (cites_only document_answers) (theme_loop blocks document_answers themes).
Proof.
  induction blocks as [|block rest IH]; intros themes Hacc; simpl; [exact Hacc|].
  destruct (theme_of_block block document_answers) as [| |t] eqn:E.
  - now apply IH.
  - exact Hacc.
  - apply IH. apply Forall_app. split; [exact Hacc|].
    constructor; [|constructor]. eapply theme_of_block_cites, E.
Qed.

Lemma parse_theme_response_cites response_text document_answers :
  Reply.sources (parse_theme_response response_text document_answers)
  = document_answers
  /\ Forall (cites_only document_answers)
       (Reply.themes (parse_theme_response response_text document_answers)).
Proof.
  unfold parse_theme_response.
  destruct (Str.split answer_marker response_text) as [|part0 more]; simpl.
  - split; [reflexivity | constructor].
  - split; [reflexivity|]. apply theme_loop_cites. constructor.
Qed.

Lemma identify_themes_cites reply document_answers :
  Reply.sources (identify_themes reply document_answers) = document_answers
  /\ Forall (cites_only document_answers)
       (Reply.themes (identify_themes reply document_answers)).
Proof.
  destruct reply as [content|e]; simpl.
  - apply parse_theme_response_cites.
  - split; [reflexivity | constructor].
Qed.

(** X18. Whatever the chat service replies, failure included, the dict of
    [identify_themes] (and of [parse_theme_response]) hands back
    [document_answers] as its sources, and every document listed under a
    theme is the id, name and page of one of those entries: a number outside
    [1 .. len(document_answers)] is never turned into a citation. *)
Theorem themes_cite_sources (reply : outcome string) (content : string)
    (document_answers : list Answer.t) :
  (Reply.sources (identify_themes reply document_answers) = document_answers
   /\ Forall (cites_only document_answers)
        (Reply.themes (identify_themes reply document_answers)))
  /\ (Reply.sources (parse_theme_response content document_answers)
      = document_answers
      /\ Forall (cites_only document_answers)
           (Reply.themes (parse_theme_response content document_answers))).
Proof.
  split; [apply identify_themes_cites | apply parse_theme_response_cites].
Qed.

Lemma append_nil_r (a : string) : a +:+ EmptyString = a.
Proof.
  induction a as [|c a IH]; [reflexivity|].
  change (String c a +:+ EmptyString) with (String c (a +:+ EmptyString)).
  now rewrite IH.
Qed.

Lemma append_assoc (a b c : string) : (a +:+ b) +:+ c = a +:+ (b +:+ c).
Proof.
  induction a as [|x a IH]; [reflexivity|].
  change ((String x a +:+ b) +:+ c) with (String x ((a +:+ b) +:+ c)).
  change (String x a +:+ (b +:+ c)) with (String x (a +:+ (b +:+ c))).
  now rewrite IH.
Qed.

(** Splitting on a separator that does not occur gives the text back. *)
Lemma split_scan_absent sep (s : string) :
  forall cur,
    Text.contains sep s = false ->
    Str.split_scan sep 0 cur s = [cur +:+ s].
Proof.
  induction s as [|c rest IH]; intros cur H; cbn [Str.split_scan].
  - now rewrite append_nil_r.
  - cbn [Text.contains] in H. apply orb_false_iff in H as [Hp Hc].
    rewrite Hp, IH by exact Hc. now rewrite append_assoc.
Qed.

(** X19. A reply of the chat service that does not contain the marker
    ["SYNTHESIZED ANSWER:"] gives the fixed answer "Could not extract
    answer.". *)
Theorem parse_without_marker (response_text : string)
    (document_answers : list Answer.t) :
  Text.contains answer_marker response_text = false ->
  Reply.synthesized_answer (parse_theme_response response_text document_answers)
  = "Could not extract answer.".
Proof.
  intros H.
  assert (E : Str.split answer_marker response_text = [response_text]).
  { unfold Str.split. now rewrite split_scan_absent by exact H. }
  unfold parse_theme_response. rewrite E. reflexivity.
Qed.

Lemma parse_without_marker_witness :
  Reply.synthesized_answer (parse_theme_response "I do not know." [])
  = "Could not extract answer.".
Proof.
  apply (parse_without_marker "I do not know." []). vm_compute. reflexivity.
Defined.

(** X20. What [ask_question] returns.  It is the "no relevant content" dict
    exactly when the search has no result.  Otherwise the sources are one
    entry per search result, in the order of the search, at least one and at
    most five; each carries the id, name, page and text of a chunk record of
    the store; and the themes cite only these sources, whatever the chat
    service replied. *)
Theorem ask_question_sources (embed : string -> vec) (s : store)
    (question : string) (chat : nat -> outcome string)
    (themes_reply : outcome string) (str_exn : exn -> string) :
  match ask_question embed s question chat themes_reply str_exn with
  | NoRelevantContent => search embed s question 5 None = []
  | Answered r =>
      Reply.sources r
      = imap (document_answer chat str_exn) (search embed s question 5 None)
      /\ (0 < length (Reply.sources r) <= 5)%nat
      /\ Forall (fun a => exists c,
                    c ∈ chunks s
                    /\ Answer.doc_id a = Chunk.doc_id c
                    /\ Answer.doc_name a = Chunk.doc_name c
                    /\ Answer.page a = Chunk.page c
                    /\ Answer.para a = Chunk.text c)
           (Reply.sources r)
      /\ Forall (cites_only (Reply.sources r)) (Reply.themes r)
  end.
Proof.
  unfold ask_question.
  pose proof (search_step_chunk s None) as Hchunk.
  assert (Hlen : (length (search embed s question 5 None) <= 5)%nat).
  { unfold search. destruct (ntotal s =? 0)%nat; [simpl; lia|].
    etransitivity; [apply omap_length|]. rewrite index_search_length. lia. }
  assert (Hin : Forall (fun r => res_chunk r ∈ chunks s)
                  (search embed s question 5 None)).
  { unfold search. destruct (ntotal s =? 0)%nat; [constructor|].
    apply Forall_forall. intros r Hr.
    apply list_elem_of_omap in Hr as (h & _ & Hstep).
    eapply Hchunk, Hstep. }
  destruct (search embed s question 5 None) as [|r0 rs] eqn:E; [reflexivity|].
  destruct (identify_themes_cites themes_reply
              (imap (document_answer chat str_exn) (r0 :: rs))) as [Hsrc Hcite].
  rewrite Hsrc. split; [reflexivity|]. split; [|split].
  - rewrite length_imap. simpl in *. lia.
  - apply Forall_forall. intros a Ha.
    apply elem_of_lookup_imap in Ha as (i & r & -> & Hr).
    rewrite Forall_forall in Hin.
    exists (res_chunk r). split; [|done].
    eapply Hin, list_elem_of_lookup_2, Hr.
  - exact Hcite.
Qed.

(** X21. On a store that satisfies the dense id invariant, [ask_question]
    returns the "no relevant content" dict exactly when the index is empty:
    with at least one vector every question is answered from the nearest
    chunks, however far they are. *)
Theorem ask_no_content_iff_empty (embed : string -> vec) (s : store)
    (question : string) (chat : nat -> outcome string)
    (themes_reply : outcome string) (str_exn : exn -> string) :
  in_step embed s ->
  ask_question embed s question chat themes_reply str_exn = NoRelevantContent
  <-> ntotal s = 0%nat.
Proof.
  intros Hs. pose proof (search_length_in_step embed s question 5 Hs) as Hlen.
  unfold ask_question.
  destruct (search embed s question 5 None) as [|r0 rs]; cbn [length] in Hlen.
  - split; [intros _; lia | reflexivity].
  - split; [discriminate | intros H; lia].
Qed.

Lemma ask_no_content_iff_empty_witness :
  ask_question Sample.toy Sample.store_AB Sample.paris
    (fun _ => Returned "an answer") (Raised IOError) (fun _ => "failure")
  = NoRelevantContent
  <-> ntotal Sample.store_AB = 0%nat.
Proof.
  apply (ask_no_content_iff_empty Sample.toy Sample.store_AB Sample.paris
           (fun _ => Returned "an answer") (Raised IOError) (fun _ => "failure")).
  split; vm_compute; reflexivity.
Defined.

(** * Shape of the records and of the registry *)

Section Shapes.

Variable embed : string -> vec.

Lemma ingested_nonempty doc_id doc_name page_count len0 nt n start paragraphs :
  paragraphs ≠ [] ->
  (1 <= length (ingested doc_id doc_name page_count len0 nt n start paragraphs))%nat.
Proof.
  intros H. rewrite ingested_length. destruct paragraphs; [done|simpl; lia].
Qed.

Lemma uploaded_shape_add filename text now s :
  in_step embed s ->
  Forall uploaded_shape (chunks s) ->
  Forall uploaded_shape
    (chunks (add_document embed text filename filename 1 now s).2).
Proof.
  intros Hs Hall. pose proof (in_step_length embed s Hs) as Hlen.
  destruct (decide (_split_text text default_min_length = [])) as [E|E].
  { now rewrite add_document_no_chunks. }
  rewrite add_document_ok by (assumption || lia). cbn [snd chunks].
  apply Forall_app. split; [exact Hall|].
  apply Forall_lookup. intros j c Hc.
  apply ingested_lookup in Hc as (para & _ & ->).
  unfold uploaded_shape. cbn. rewrite Z.mod_1_r. repeat split; lia.
Qed.

Lemma uploaded_shape_run uploads :
  forall s,
    in_step embed s ->
    Forall uploaded_shape (chunks s) ->
    Forall uploaded_shape (chunks (run_uploads embed uploads s)).
Proof.
  induction uploads as [|[[filename extracted] now] uploads IH]; intros s Hs Hall;
    [exact Hall|].
  simpl. apply IH; [now apply in_step_upload|].
  destruct extracted as [text|e]; [|exact Hall].
  destruct (decide (_split_text text default_min_length = [])) as [E|E].
  - destruct (Str.truthy (Str.strip text)) eqn:Ht.
    + now rewrite upload_doc_no_chunks.
    + now rewrite upload_doc_blank.
  - rewrite upload_doc_complete by exact E. now apply uploaded_shape_add.
Qed.

(** Renumbering, or any other change of the ids alone, does not change how
    many chunks a document has. *)
Lemma filter_doc_length (d : string) (l1 : list Chunk.t) :
  forall l2,
    Chunk.doc_id <$> l1 = Chunk.doc_id <$> l2 ->
    length (filter (fun c => Chunk.doc_id c = d) l1)
    = length (filter (fun c => Chunk.doc_id c = d) l2).
Proof.
  induction l1 as [|c1 l1 IH]; intros [|c2 l2] H; try done.
  rewrite !fmap_cons in H. injection H as Hd Hrest.
  rewrite !filter_cons, Hd.
  destruct (decide (Chunk.doc_id c2 = d)); simpl; now rewrite (IH l2 Hrest).
Qed.

Lemma renumber_doc_ids cs : Chunk.doc_id <$> renumber cs = Chunk.doc_id <$> cs.
Proof.
  apply list_eq. intros j. rewrite !list_lookup_fmap, renumber_lookup.
  now destruct (cs !! j).
Qed.

Lemma filter_other_doc (d d0 : string) (cs : list Chunk.t) :
  d ≠ d0 ->
  filter (fun c => Chunk.doc_id c = d) (filter (fun c => Chunk.doc_id c ≠ d0) cs)
  = filter (fun c => Chunk.doc_id c = d) cs.
Proof.
  intros Hd. induction cs as [|c cs IH]; [done|].
  rewrite !filter_cons.
  destruct (decide (Chunk.doc_id c ≠ d0)) as [Hn|Hn].
  - rewrite filter_cons. destruct (decide (Chunk.doc_id c = d)); now rewrite IH.
  - apply dec_stable in Hn. rewrite decide_False by congruence. exact IH.
Qed.

Lemma counts_sound_add text doc_id doc_name page_count now s :
  counts_sound s ->
  counts_sound (add_document embed text doc_id doc_name page_count now s).2.
Proof.
  intros Hs.
  destruct (decide (_split_text text default_min_length = [])) as [E|E].
  { now rewrite add_document_no_chunks. }
  destruct (decide (page_count = 0)) as [->|Hpc].
  { rewrite add_document_zero by exact E. exact Hs. }
  rewrite add_document_ok by assumption. cbn [snd].
  set (new := ingested doc_id doc_name page_count (length (chunks s))
                (ntotal s + length (_split_text text default_min_length))
                (length (_split_text text default_min_length)) 0
                (_split_text text default_min_length)).
  assert (Hnew : Forall (fun c => Chunk.doc_id c = doc_id) new)
    by apply ingested_doc_id.
  assert (Hlen : (1 <= length new)%nat) by now apply ingested_nonempty.
  assert (Hn : length new = length (_split_text text default_min_length))
    by apply ingested_length.
  intros d m. unfold get_document_chunks. cbn [chunks document_metadata].
  rewrite filter_app, length_app.
  destruct (decide (d = doc_id)) as [->|Hd].
  - rewrite lookup_insert_eq. intros [= <-]. cbn [Meta.chunk_count].
    rewrite (filter_all _ new Hnew). lia.
  - rewrite lookup_insert_ne by done. intros Hm.
    specialize (Hs d m Hm). unfold get_document_chunks in Hs.
    rewrite (filter_none (fun c => Chunk.doc_id c = d) new); [simpl; lia|].
    eapply Forall_impl; [exact Hnew|]. intros c Hc. congruence.
Qed.

Lemma counts_sound_delete doc_id s :
  counts_sound s -> counts_sound (delete_document doc_id s).2.
Proof.
  intros Hs.
  destruct (delete_document_cases doc_id s) as [->|(mask & _ & _ & _ & ->)];
    [exact Hs|].
  cbn [snd]. intros d m. unfold get_document_chunks. cbn [chunks document_metadata].
  destruct (decide (d = doc_id)) as [->|Hd].
  - rewrite lookup_delete_eq. discriminate.
  - rewrite lookup_delete_ne by done. intros Hm.
    specialize (Hs d m Hm). unfold get_document_chunks in Hs.
    rewrite (filter_doc_length d _ _ (renumber_doc_ids _)).
    now rewrite filter_other_doc.
Qed.

Lemma counts_sound_run ops :
  forall s, counts_sound s -> counts_sound (run embed ops s).
Proof.
  induction ops as [|o ops IH]; intros s Hs; [exact Hs|].
  simpl. apply IH.
  destruct o as [text doc_id doc_name page_count now | doc_id]; simpl.
  - now apply counts_sound_add.
  - now apply counts_sound_delete.
Qed.

End Shapes.

(** X22. Every chunk record in a store built by uploads has page 1, the file
    name as both [doc_id] and [doc_name], and its [chunk_id] equal to its
    [embedding_id]: the upload handler never passes a page count, so the
    page of a source is always 1. *)
Theorem uploads_shape (embed : string -> vec)
    (uploads : list (string * outcome string * string)) :
  Forall uploaded_shape (chunks (run_uploads embed uploads empty_store)).
Proof.
  apply uploaded_shape_run; [apply in_step_empty | constructor].
Qed.

(** X23. After any sequence of ingests and deletes from the empty store, the
    [chunk_count] of a registered document is at least one and never more
    than the number of chunk records the document has (it is less after a
    re-ingest, which keeps the earlier records). *)
Theorem chunk_count_bounds (embed : string -> vec) (ops : list op) :
  counts_sound (run embed ops empty_store).
Proof.
  apply counts_sound_run. intros d m H. simpl in H.
  rewrite lookup_empty in H. discriminate.
Qed.

(** X24. Compaction keeps chunks and vectors paired: after a delete that
    answers [True] on a store satisfying the dense id invariant, searching
    for the text of any remaining chunk still returns, first, a result at
    distance 0 with an id not above that chunk's. *)
Theorem delete_keeps_retrieval (embed : string -> vec) (s s' : store)
    (d : string) (c : Chunk.t) (top_k : nat) :
  in_step embed s ->
  delete_document d s = (Returned true, s') ->
  c ∈ chunks s' ->
  (0 < top_k)%nat ->
  exists r rest,
    search embed s' (Chunk.text c) top_k None = r :: rest
    /\ distance r = 0
    /\ (Chunk.embedding_id (res_chunk r) <= Chunk.embedding_id c)%nat.
Proof.
  intros Hs Hdel Hc Hk.
  apply self_retrieval_in_step; [|exact Hc|exact Hk].
  replace s' with (delete_document d s).2 by now rewrite Hdel.
  now apply in_step_delete.
Qed.

Lemma delete_keeps_retrieval_witness :
  exists r rest,
    search Sample.toy (delete_document "A" Sample.store_AB).2
      (Chunk.text (Chunk.mk "B" "B" Sample.berlin 1 2 0)) 5 None = r :: rest
    /\ distance r = 0
    /\ (Chunk.embedding_id (res_chunk r)
        <= Chunk.embedding_id (Chunk.mk "B" "B" Sample.berlin 1 2 0))%nat.
Proof.
  apply (delete_keeps_retrieval Sample.toy Sample.store_AB
           (delete_document "A" Sample.store_AB).2 "A"
           (Chunk.mk "B" "B" Sample.berlin 1 2 0) 5).
  - split; vm_compute; reflexivity.
  - vm_compute. reflexivity.
  - vm_compute. apply list_elem_of_here.
  - lia.
Defined.
